(** * gdg_json: the GDGJson adapter over a columnar table engine

    The class [GDGJson] of [src/src/gdg_json/__init__.py] is glue code: every
    method is one or two calls into the polars table engine followed by a
    rebinding of the attribute [self.df].  The development has three layers:

    - [pl]: the part of the engine the class calls (frames as ordered lists
      of named, typed columns; [select], [rename], [drop], [explode],
      [with_columns], [to_dicts], [read_json], item assignment), as the
      current engine behaves, for plain column names and frames with at
      least one column;
    - a state and exception monad [M] over the adapter object and the store
      of table objects, so that aliasing and the state left behind by a
      raised exception are visible;
    - the methods of [GDGJson], one definition per method, line by line. *)

From Stdlib Require Import ZArith Ascii.
From stdpp Require Import base option list strings gmap.

Local Open Scope string_scope.
Local Open Scope list_scope.
Set Warnings "-register-all".

(** ** Exceptions and results *)

(** The Python and engine exceptions the class can raise. *)
Inductive exn : Type :=
  | ValueError
  | TypeError
  | KeyError
  | AttributeError
  | ColumnNotFoundError
  | DuplicateError
  | InvalidOperationError
  | StructFieldNotFoundError
  | ShapeError
  | ComputeError.

Inductive result (A : Type) : Type :=
  | Ok (a : A)
  | Raise (e : exn).
Arguments Ok {A} a.
Arguments Raise {A} e.

#[global] Instance result_ret : MRet result := fun _ a => Ok a.
#[global] Instance result_bind : MBind result := fun _ _ f m =>
  match m with
  | Ok a => f a
  | Raise e => Raise e
  end.
#[global] Instance result_fmap : FMap result := fun _ _ f m =>
  match m with
  | Ok a => Ok (f a)
  | Raise e => Raise e
  end.

Definition is_ok {A} (r : result A) : bool :=
  match r with Ok _ => true | Raise _ => false end.

(** [for x in xs] collecting results, stopping at the first exception. *)
Fixpoint mapR {A B} (f : A -> result B) (xs : list A) : result (list B) :=
  match xs with
  | [] => Ok []
  | x :: xs' =>
      match f x with
      | Raise e => Raise e
      | Ok y =>
          match mapR f xs' with
          | Raise e => Raise e
          | Ok ys => Ok (y :: ys)
          end
      end
  end.

(** ** Values and data types of the engine *)

(** A cell of a table, which is also the shape of a parsed JSON document:
    [VStruct] is a JSON object (a Python dict in [to_dicts]), [VList] a JSON
    array.  A float is given by the 64 bits of its binary representation; an
    integer is any integer, and only those of 64 bits have a type below. *)
Inductive value : Type :=
  | VNull
  | VBool (b : bool)
  | VInt (z : Z)
  | VFloat (bits : Z)
  | VStr (s : string)
  | VList (items : list value)
  | VStruct (fields : list (string * value)).

#[global] Instance value_inhabited : Inhabited value := populate VNull.

Inductive dtype : Type :=
  | TNull
  | TBoolean
  | TInt64
  | TFloat64
  | TString
  | TList (inner : dtype)
  | TStruct (fields : list (string * dtype)).

(** Lookup in an ordered sequence of named things (first match). *)
Fixpoint assoc {A} (k : string) (l : list (string * A)) : option A :=
  match l with
  | [] => None
  | (k', a) :: l' => if String.eqb k k' then Some a else assoc k l'
  end.

(** The common type of two inferred types; [None] when the engine would have
    to coerce. *)
Fixpoint unify (a b : dtype) {struct a} : option dtype :=
  match a, b with
  | TNull, _ => Some b
  | _, TNull => Some a
  | TBoolean, TBoolean => Some TBoolean
  | TInt64, TInt64 => Some TInt64
  | TFloat64, TFloat64 => Some TFloat64
  | TString, TString => Some TString
  | TList x, TList y =>
      match unify x y with Some t => Some (TList t) | None => None end
  | TStruct fs, TStruct gs =>
      let fix go (fs gs : list (string * dtype)) {struct fs}
          : option (list (string * dtype)) :=
        match fs, gs with
        | [], [] => Some []
        | (n, t) :: fs', (m, u) :: gs' =>
            if String.eqb n m then
              match unify t u, go fs' gs' with
              | Some t', Some r => Some ((n, t') :: r)
              | _, _ => None
              end
            else None
        | _, _ => None
        end in
      match go fs gs with Some r => Some (TStruct r) | None => None end
  | _, _ => None
  end.

(** The integers of the engine's 64-bit type. *)
Definition in_int64 (z : Z) : bool :=
  ((- 2 ^ 63 <=? z) && (z <? 2 ^ 63))%Z.

(** Type inference for one value; an integer beyond 64 bits has no type. *)
Fixpoint value_dtype (v : value) : option dtype :=
  match v with
  | VNull => Some TNull
  | VBool _ => Some TBoolean
  | VInt z => if in_int64 z then Some TInt64 else None
  | VFloat _ => Some TFloat64
  | VStr _ => Some TString
  | VList items =>
      let fix go (items : list value) (acc : dtype) {struct items}
          : option dtype :=
        match items with
        | [] => Some acc
        | x :: items' =>
            match value_dtype x with
            | Some t =>
                match unify acc t with
                | Some u => go items' u
                | None => None
                end
            | None => None
            end
        end in
      match go items TNull with Some t => Some (TList t) | None => None end
  | VStruct fields =>
      let fix go (fields : list (string * value)) {struct fields}
          : option (list (string * dtype)) :=
        match fields with
        | [] => Some []
        | (k, x) :: fields' =>
            match value_dtype x, go fields' with
            | Some t, Some r => Some ((k, t) :: r)
            | _, _ => None
            end
        end in
      match go fields with Some r => Some (TStruct r) | None => None end
  end.

(** Type inference for a column: the common type of its cells. *)
Fixpoint infer_dtype (vs : list value) (acc : dtype) : option dtype :=
  match vs with
  | [] => Some acc
  | v :: vs' =>
      match value_dtype v with
      | Some t =>
          match unify acc t with
          | Some u => infer_dtype vs' u
          | None => None
          end
      | None => None
      end
  end.

(** Equality of types. *)
Fixpoint dtype_eqb (a b : dtype) {struct a} : bool :=
  match a, b with
  | TNull, TNull => true
  | TBoolean, TBoolean => true
  | TInt64, TInt64 => true
  | TFloat64, TFloat64 => true
  | TString, TString => true
  | TList x, TList y => dtype_eqb x y
  | TStruct fs, TStruct gs =>
      (fix go (fs gs : list (string * dtype)) {struct fs} : bool :=
         match fs, gs with
         | [], [] => true
         | (n, t) :: fs', (m, u) :: gs' =>
             String.eqb n m && dtype_eqb t u && go fs' gs'
         | _, _ => false
         end) fs gs
  | _, _ => false
  end.

(** A cell fits a column type when storing it needs no change of the type:
    its own type adds nothing to the column's. *)
Definition fits (t : dtype) (v : value) : bool :=
  match value_dtype v with
  | Some u =>
      match unify t u with
      | Some t' => dtype_eqb t' t
      | None => false
      end
  | None => false
  end.

(** ** The table engine *)

(** The engine is a library outside the repository.  [pl] states, as
    functions, the behaviour of the calls the class makes: what they return
    and which exception they raise, as the current engine (series 2) does.

    Two limits of the model are kept out of every statement by a hypothesis.
    First, the engine reads a column name of the form [*] or [^...$] as a
    pattern that stands for several columns; the model looks every name up as
    it is, which is the engine's behaviour for the other names, the [plain]
    ones.  Second, a frame is the list of its columns, so a frame without
    columns has no rows here, while the engine keeps the row count of such a
    frame. *)
Module pl.

(** The last character of a name. *)
Fixpoint ends_with (a : Ascii.ascii) (n : string) : bool :=
  match n with
  | EmptyString => false
  | String b EmptyString => Ascii.eqb a b
  | String _ n' => ends_with a n'
  end.

(** A name the engine reads as a pattern: the wildcard, or a regular
    expression written between [^] and [$]. *)
Definition pattern (n : string) : bool :=
  String.eqb n "*"
  || match n with
     | String a _ => Ascii.eqb a "^"%char && ends_with "$"%char n
     | EmptyString => false
     end.

(** A name the engine reads as the name of one column. *)
Definition plain (n : string) : bool := negb (pattern n).

(** Every name of a list is plain. *)
Definition all_plain (l : list string) : Prop := forallb plain l = true.

(** A column: a name, a data type and one cell per row. *)
Record Series : Type := mkSeries {
  name : string;
  dtype_of : dtype;
  values : list value
}.

(** A frame is the ordered sequence of its columns. *)
Abbreviation DataFrame := (list Series).

Definition columns (df : DataFrame) : list string := map name df.

(** The number of rows, for a frame with at least one column. *)
Definition height (df : DataFrame) : nat :=
  match df with
  | [] => 0
  | s :: _ => length (values s)
  end.

Definition get_column (df : DataFrame) (c : string) : option Series :=
  List.find (fun s => String.eqb (name s) c) df.

(** [df.schema]: the column names with their data types, in order. *)
Definition schema (df : DataFrame) : list (string * dtype) :=
  map (fun s => (name s, dtype_of s)) df.

Definition has_name (c : string) (l : list string) : bool :=
  existsb (String.eqb c) l.

Fixpoint distinct (l : list string) : bool :=
  match l with
  | [] => true
  | x :: l' => negb (has_name x l') && distinct l'
  end.

(** The field names of a type are plain, at every depth. *)
Fixpoint plain_dtype (t : dtype) : bool :=
  match t with
  | TList inner => plain_dtype inner
  | TStruct fields =>
      (fix go (fields : list (string * dtype)) : bool :=
         match fields with
         | [] => true
         | (n, u) :: fields' => plain n && plain_dtype u && go fields'
         end) fields
  | _ => true
  end.

(** A frame whose column names and field names are all plain. *)
Definition plain_frame (df : DataFrame) : Prop :=
  forallb (fun s => plain (name s) && plain_dtype (dtype_of s)) df = true.

(** *** Expressions *)

Inductive Expr : Type :=
  | col (c : string)
  | struct_field (e : Expr) (f : string)
  | alias (e : Expr) (n : string).

(** The field [f] of one struct cell; a null struct has null fields. *)
Definition field_value (f : string) (v : value) : value :=
  match v with
  | VStruct fields => default VNull (assoc f fields)
  | _ => VNull
  end.

(** The column an expression evaluates to, names being plain. *)
Fixpoint eval (df : DataFrame) (e : Expr) : result Series :=
  match e with
  | col c =>
      match get_column df c with
      | Some s => Ok s
      | None => Raise ColumnNotFoundError
      end
  | struct_field e' f =>
      match eval df e' with
      | Raise x => Raise x
      | Ok s =>
          match dtype_of s with
          | TStruct fields =>
              match assoc f fields with
              | Some t => Ok (mkSeries f t (map (field_value f) (values s)))
              | None => Raise StructFieldNotFoundError
              end
          | _ => Raise InvalidOperationError
          end
      end
  | alias e' n =>
      match eval df e' with
      | Raise x => Raise x
      | Ok s => Ok (mkSeries n (dtype_of s) (values s))
      end
  end.

(** *** Frame operations *)

(** The name of the column an expression produces. *)
Definition output_name (e : Expr) : string :=
  match e with
  | col c => c
  | struct_field _ f => f
  | alias _ n => n
  end.

(** [df.select(exprs)]: the evaluated expressions, in order.  Two outputs of
    one name are an error, and the engine reports it before it looks for the
    columns. *)
Definition select (df : DataFrame) (exprs : list Expr) : result DataFrame :=
  if distinct (map output_name exprs)
  then mapR (eval df) exprs
  else Raise DuplicateError.

(** [df.rename(mapping)]: the columns take their new names in place.  The
    engine first builds the new list of names and reports two columns of one
    name; only then does it require every key to name a column, a key mapped
    to itself excepted. *)
Definition rename (df : DataFrame) (mapping : gmap string string)
    : result DataFrame :=
  let out :=
    map (fun s => mkSeries (default (name s) (mapping !! name s))
                           (dtype_of s) (values s)) df in
  if distinct (columns out) then
    if forallb (fun kv => String.eqb kv.1 kv.2 || has_name kv.1 (columns df))
               (map_to_list mapping)
    then Ok out
    else Raise ColumnNotFoundError
  else Raise DuplicateError.

(** [df.drop(names)], the names being plain: every name must name a column;
    order kept. *)
Definition drop (df : DataFrame) (names : list string) : result DataFrame :=
  if forallb (fun k => has_name k (columns df)) names
  then Ok (List.filter (fun s => negb (has_name (name s) names)) df)
  else Raise ColumnNotFoundError.

(** [df.with_columns(expr)]: replaces the column of the same name in place,
    or appends. *)
Definition with_columns (df : DataFrame) (e : Expr) : result DataFrame :=
  match eval df e with
  | Raise x => Raise x
  | Ok s =>
      if has_name (name s) (columns df)
      then Ok (map (fun s' => if String.eqb (name s') (name s) then s else s') df)
      else Ok (df ++ [s])
  end.

(** The rows one cell of an exploded column becomes: one per element of a
    list, so none for an empty list, and a single null for a null.  (Engines
    before series 2 made a null row of an empty list as well.) *)
Definition explode_cell (v : value) : list value :=
  match v with
  | VList items => items
  | _ => [VNull]
  end.

(** The cells of another column, each repeated once per row that the
    exploded cell beside it becomes. *)
Fixpoint repeat_cells (by_ : list value) (vs : list value) : list value :=
  match by_, vs with
  | b :: by', v :: vs' => replicate (length (explode_cell b)) v ++ repeat_cells by' vs'
  | _, _ => []
  end.

(** [df.explode(c)], the name being plain. *)
Definition explode (df : DataFrame) (c : string) : result DataFrame :=
  match get_column df c with
  | None => Raise ColumnNotFoundError
  | Some s =>
      match dtype_of s with
      | TList inner =>
          Ok (map (fun s' =>
                     if String.eqb (name s') c
                     then mkSeries (name s') inner
                            (concat (map explode_cell (values s')))
                     else mkSeries (name s') (dtype_of s')
                            (repeat_cells (values s) (values s')))
                  df)
      | _ => Raise InvalidOperationError
      end
  end.

(** A row as [to_dicts] gives it: column name to cell, in column order. *)
Abbreviation row := (list (string * value)).

Definition row_at (df : DataFrame) (i : nat) : row :=
  map (fun s => (name s, default VNull (values s !! i))) df.

(** [df.to_dicts()], for a frame with at least one column. *)
Definition to_dicts (df : DataFrame) : list row :=
  map (row_at df) (seq 0 (height df)).

(** [df[key] = value] with a column name as key.  The engine refuses
    assignment by name, whatever the frame and the value: frames get
    columns through [with_columns]. *)
Definition setitem (df : DataFrame) (key : string) (v : value)
    : result DataFrame :=
  Raise TypeError.

(** *** Construction *)

(** The records of a JSON document: a single object is one record, an array
    must hold objects. *)
Definition records (doc : value) : result (list row) :=
  match doc with
  | VStruct fields => Ok [fields]
  | VList items =>
      mapR (fun v => match v with
                     | VStruct fields => Ok fields
                     | _ => Raise ComputeError
                     end) items
  | _ => Raise ComputeError
  end.

(** The keys of the records, in order of first appearance. *)
Fixpoint add_keys (ks : list string) (acc : list string) : list string :=
  match ks with
  | [] => acc
  | k :: ks' => add_keys ks' (if has_name k acc then acc else acc ++ [k])
  end.

Definition record_keys (rows : list row) : list string :=
  fold_left (fun acc r => add_keys (map fst r) acc) rows [].

(** A column from Python cells: its type is the common type of the cells.
    Cells the model cannot type together (different types, an integer beyond
    64 bits) are rejected here; what the engine does with them, a coercion
    or an exception of its own, is outside the model. *)
Definition make_series (c : string) (vs : list value) : result Series :=
  match infer_dtype vs TNull with
  | Some t => Ok (mkSeries c t vs)
  | None => Raise ComputeError
  end.

(** The number of records [read_json] reads to infer the schema. *)
Definition infer_schema_length : nat := 100.

(** A column from JSON cells: its type is the common type of the cells of
    the first [infer_schema_length] records, and every later cell has to fit
    it. *)
Definition make_json_series (c : string) (vs : list value) : result Series :=
  match infer_dtype (take infer_schema_length vs) TNull with
  | Some t =>
      if forallb (fits t) (List.skipn infer_schema_length vs)
      then Ok (mkSeries c t vs)
      else Raise ComputeError
  | None => Raise ComputeError
  end.

(** The cells of the column of key [k]: a record without the key has a
    null cell. *)
Definition cells (k : string) (rows : list row) : list value :=
  map (fun r => default VNull (assoc k r)) rows.

(** [pl.read_json]: one column per key of the first [infer_schema_length]
    records.  A cell after them that does not fit the inferred type is an
    error of the engine; cells without a common type within them are
    rejected here, the coercions of the engine being outside the model. *)
Definition read_json (doc : value) : result DataFrame :=
  match records doc with
  | Raise x => Raise x
  | Ok rows =>
      mapR (fun k => make_json_series k (cells k rows))
           (record_keys (take infer_schema_length rows))
  end.

(** [pl.DataFrame(data)] for a dict of column name to cells. *)
Definition from_dict (data : list (string * list value)) : result DataFrame :=
  match data with
  | [] => Ok []
  | (_, vs0) :: _ =>
      if forallb (fun '(_, vs) => Nat.eqb (length vs) (length vs0)) data
      then mapR (fun '(k, vs) => make_series k vs) data
      else Raise ShapeError
  end.

End pl.

(** ** Objects, the store and the method monad *)

(** Table objects and adapter objects live in a store and are named by their
    index.  An adapter object has one attribute, [df], a reference to a table
    object.  Nothing is ever freed. *)
Record store : Type := mkStore {
  tables : list pl.DataFrame;
  adapters : list nat
}.

(** A computation may change the store and ends with a value or with a raised
    exception; the store at the raise is what the caller sees afterwards. *)
Definition M (A : Type) : Type := store -> result A * store.

#[global] Instance M_ret : MRet M := fun _ a σ => (Ok a, σ).
#[global] Instance M_bind : MBind M := fun _ _ f m σ =>
  match m σ with
  | (Ok a, σ') => f a σ'
  | (Raise e, σ') => (Raise e, σ')
  end.

Definition raise {A} (e : exn) : M A := fun σ => (Raise e, σ).

(** The outcome of an engine call that does not touch the store. *)
Definition lift {A} (r : result A) : M A := fun σ => (r, σ).

(** A frame the engine has just produced becomes a new table object. *)
Definition new_table (d : pl.DataFrame) : M nat := fun σ =>
  (Ok (length (tables σ)), mkStore (tables σ ++ [d]) (adapters σ)).

Definition read_table (l : nat) : M pl.DataFrame := fun σ =>
  (Ok (tables σ !!! l), σ).

Definition new_adapter (l : nat) : M nat := fun σ =>
  (Ok (length (adapters σ)), mkStore (tables σ) (adapters σ ++ [l])).

(** [self.df] as a reference. *)
Definition get_df (self : nat) : M nat := fun σ =>
  (Ok (adapters σ !!! self), σ).

(** [self.df = l]. *)
Definition set_df (self : nat) (l : nat) : M unit := fun σ =>
  (Ok tt, mkStore (tables σ) (<[self := l]> (adapters σ))).

(** An operation of the engine that works on the table object itself: the
    object at [l] is overwritten when the operation succeeds. *)
Definition update_table (l : nat) (f : pl.DataFrame -> result pl.DataFrame)
    : M unit := fun σ =>
  match f (tables σ !!! l) with
  | Ok d => (Ok tt, mkStore (<[l := d]> (tables σ)) (adapters σ))
  | Raise e => (Raise e, σ)
  end.

(** The table an adapter holds in a store. *)
Definition table_of (σ : store) (self : nat) : pl.DataFrame :=
  tables σ !!! (adapters σ !!! self).

(** Arguments as Python passes them to the constructor.  A [str] is
    represented by the JSON document it spells; a [pl.DataFrame] argument is
    a reference to the caller's table object. *)
Inductive pyobj : Type :=
  | PyStr (doc : value)
  | PyDict (data : list (string * list value))
  | PyDataFrame (l : nat)
  | PyList (rows : list pl.row).

(** The [str | List[str]] argument of [drop]. *)
Inductive names_arg : Type :=
  | OneName (c : string)
  | Names (cs : list string).

Definition names_of (a : names_arg) : list string :=
  match a with
  | OneName c => [c]
  | Names cs => cs
  end.

(** [dict(zip(ks, vs))]: pairs up to the shorter sequence, a later pair
    replaces an earlier one with the same key. *)
Definition dict_zip (ks vs : list string) : gmap string string :=
  fold_left (fun m kv => <[kv.1 := kv.2]> m) (zip ks vs) ∅.

(** ** The class *)

Module GDGJson.

(** [self.df] as a frame. *)
Definition df (self : nat) : M pl.DataFrame :=
  l ← get_df self; read_table l.

(** [self.df = d] for a frame [d] fresh from the engine. *)
Definition assign (self : nat) (d : pl.DataFrame) : M unit :=
  l ← new_table d; set_df self l.

(** [GDGJson(json_obj)]. *)
Definition __init__ (json_obj : pyobj) : M nat :=
  match json_obj with
  | PyStr doc =>
      d ← lift (pl.read_json doc); l ← new_table d; new_adapter l
  | PyDict data =>
      d ← lift (pl.from_dict data); l ← new_table d; new_adapter l
  | PyDataFrame l => new_adapter l
  | _ => raise ValueError
  end.

Definition to_json (self : nat) : M (list pl.row) :=
  d ← df self; mret (pl.to_dicts d).

(** The prefix put before each field name. *)
Definition alias_of (column_name : string) (prefix : option string) : string :=
  match prefix with
  | None => column_name +:+ "_"
  | Some "" => ""
  | Some p => p +:+ "_"
  end.

(** [self.df.schema[column_name].fields]. *)
Definition struct_fields (d : pl.DataFrame) (column_name : string)
    : result (list (string * dtype)) :=
  match assoc column_name (pl.schema d) with
  | None => Raise KeyError
  | Some (TStruct fields) => Ok fields
  | Some _ => Raise AttributeError
  end.

Definition unnest_exprs (d : pl.DataFrame) (column_name alias : string)
    (fields : list (string * dtype)) : list pl.Expr :=
  map (fun field => pl.alias (pl.struct_field (pl.col column_name) field.1)
                             (alias +:+ field.1)) fields
  ++ map pl.col (List.filter (fun c => negb (String.eqb c column_name))
                             (pl.columns d)).

Definition __unnest_with_prefix (self : nat) (column_name : string)
    (prefix : option string) : M pl.DataFrame :=
  let alias := alias_of column_name prefix in
  d ← df self;
  fields ← lift (struct_fields d column_name);
  lift (pl.select d (unnest_exprs d column_name alias fields)).

Definition unnest_column_as_root (self : nat) (column_name : string) : M nat :=
  d ← df self;
  d1 ← lift (pl.select d [pl.col column_name]);
  assign self d1;;
  d2 ← __unnest_with_prefix self column_name (Some "");
  assign self d2;;
  mret self.

Definition unnest_column_as_rows (self : nat) (column_name : string)
    (prefix : option string) : M nat :=
  d ← df self;
  d1 ← lift (pl.explode d column_name);
  assign self d1;;
  d2 ← __unnest_with_prefix self column_name prefix;
  assign self d2;;
  mret self.

Definition rename_column (self : nat) (from_name to_name : string) : M nat :=
  d ← df self;
  d1 ← lift (pl.rename d {[ from_name := to_name ]});
  assign self d1;;
  mret self.

Definition rename_columns (self : nat) (from_names to_names : list string)
    : M nat :=
  d ← df self;
  d1 ← lift (pl.rename d (dict_zip from_names to_names));
  assign self d1;;
  mret self.

Definition drop (self : nat) (column_names : names_arg) : M nat :=
  d ← df self;
  d1 ← lift (pl.drop d (names_of column_names));
  assign self d1;;
  mret self.

Definition duplicate_column (self : nat) (column_name new_column_name : string)
    : M nat :=
  d ← df self;
  d1 ← lift (pl.with_columns d (pl.alias (pl.col column_name) new_column_name));
  assign self d1;;
  mret self.

Definition expand_column (self : nat) (column_name : string)
    (prefix : option string) : M nat :=
  d ← __unnest_with_prefix self column_name prefix;
  assign self d;;
  mret self.

Definition set_constant (self : nat) (column_name : string) (v : value)
    : M nat :=
  l ← get_df self;
  update_table l (fun d => pl.setitem d column_name v);;
  mret self.

Definition copy (self : nat) : M nat :=
  rows ← to_json self;
  __init__ (PyList rows).

(** [select] with its positional arguments as a list and the flag [copy];
    a [str] argument is the column of that name.
    The call on the copy takes the default [copy=False]. *)
Definition select_in_place (self : nat) (args : list pl.Expr) : M nat :=
  d ← df self;
  d1 ← lift (pl.select d args);
  assign self d1;;
  mret self.

Definition select (self : nat) (args : list pl.Expr) (copy_ : bool) : M nat :=
  if copy_ then
    c ← copy self; select_in_place c args
  else select_in_place self args.

Definition __repr__ (self : nat) : M (list pl.row) := to_json self.

(** [type(self)(deepcopy(self.df, memo))] with an empty memo: a new table
    object with the same columns, wrapped in a new adapter. *)
Definition __deepcopy__ (self : nat) : M nat :=
  d ← df self;
  l ← new_table d;
  __init__ (PyDataFrame l).

End GDGJson.

(** ** Transforms as data *)

(** One call of a transform method, with its arguments.  [json_normalize],
    which replaces the table by the normal form of a frame passed in, is not
    among the operations of the specification and has no constructor. *)
Inductive transform : Type :=
  | UnnestColumnAsRoot (column_name : string)
  | UnnestColumnAsRows (column_name : string) (prefix : option string)
  | RenameColumn (from_name to_name : string)
  | RenameColumns (from_names to_names : list string)
  | Drop (column_names : names_arg)
  | DuplicateColumn (column_name new_column_name : string)
  | ExpandColumn (column_name : string) (prefix : option string)
  | SetConstant (column_name : string) (v : value)
  | Select (args : list pl.Expr) (copy_ : bool).

Definition call (self : nat) (t : transform) : M nat :=
  match t with
  | UnnestColumnAsRoot c => GDGJson.unnest_column_as_root self c
  | UnnestColumnAsRows c p => GDGJson.unnest_column_as_rows self c p
  | RenameColumn a b => GDGJson.rename_column self a b
  | RenameColumns a b => GDGJson.rename_columns self a b
  | Drop cs => GDGJson.drop self cs
  | DuplicateColumn a b => GDGJson.duplicate_column self a b
  | ExpandColumn c p => GDGJson.expand_column self c p
  | SetConstant c v => GDGJson.set_constant self c v
  | Select args b => GDGJson.select self args b
  end.

(** A caller that makes the calls one after the other and goes on after an
    exception: the store after the last call. *)
Fixpoint call_all (self : nat) (ts : list transform) (σ : store) : store :=
  match ts with
  | [] => σ
  | t :: ts' => call_all self ts' (call self t σ).2
  end.

(** The column names an expression mentions. *)
Fixpoint expr_names (e : pl.Expr) : list string :=
  match e with
  | pl.col c => [c]
  | pl.struct_field e' f => expr_names e' ++ [f]
  | pl.alias e' _ => expr_names e'
  end.

(** A call whose column arguments are plain names.  The names of a renaming
    are always taken as they are. *)
Definition plain_call (t : transform) : Prop :=
  match t with
  | UnnestColumnAsRoot c => pl.plain c = true
  | UnnestColumnAsRows c _ => pl.plain c = true
  | RenameColumn _ _ => True
  | RenameColumns _ _ => True
  | Drop cs => pl.all_plain (names_of cs)
  | DuplicateColumn c _ => pl.plain c = true
  | ExpandColumn c _ => pl.plain c = true
  | SetConstant _ _ => True
  | Select args _ => pl.all_plain (concat (map expr_names args))
  end.

(** ** Sample tables *)

Definition struct_ab (a b : Z) : value :=
  VStruct [("a", VInt a); ("b", VInt b)].

Definition T_ab : dtype := TStruct [("a", TInt64); ("b", TInt64)].

(** Two rows: a struct column [c] with fields [a] and [b], and two plain
    columns. *)
Definition sample : pl.DataFrame :=
  [ pl.mkSeries "id" TInt64 [VInt 1; VInt 2];
    pl.mkSeries "c" T_ab [struct_ab 10 11; struct_ab 20 21];
    pl.mkSeries "k" TString [VStr "x"; VStr "y"] ].

(** A store with one table object and one adapter that holds it. *)
Definition store_of (d : pl.DataFrame) : store := mkStore [d] [0].

(** ** Notions used in the statements *)

(** The columns that take the place of the struct column [s]: one per field,
    named with the prefix [al], holding that field of every cell. *)
Definition field_columns (s : pl.Series) (al : string)
    (fields : list (string * dtype)) : pl.DataFrame :=
  map (fun f => pl.mkSeries (al +:+ f.1) f.2
                  (map (pl.field_value f.1) (pl.values s))) fields.

(** The columns other than [c], as they are. *)
Definition siblings (d : pl.DataFrame) (c : string) : pl.DataFrame :=
  List.filter (fun s => negb (String.eqb (pl.name s) c)) d.

(** The outcome of [__unnest_with_prefix] on a frame. *)
Definition unnest_result (d : pl.DataFrame) (c : string) (prefix : option string)
    : result pl.DataFrame :=
  match GDGJson.struct_fields d c with
  | Raise e => Raise e
  | Ok fields =>
      pl.select d (GDGJson.unnest_exprs d c (GDGJson.alias_of c prefix) fields)
  end.

(** An adapter reference that names an adapter whose table exists. *)
Definition valid (σ : store) (self : nat) : Prop :=
  self < length (adapters σ) /\ adapters σ !!! self < length (tables σ).

(** The store after [self.df = d] for a fresh frame [d]. *)
Definition rebind (σ : store) (self : nat) (d : pl.DataFrame) : store :=
  mkStore (tables σ ++ [d]) (<[self := length (tables σ)]> (adapters σ)).

(** A method that makes one engine call and assigns its result. *)
Definition step (σ : store) (self : nat) (r : result pl.DataFrame)
    : result nat * store :=
  match r with
  | Ok d => (Ok self, rebind σ self d)
  | Raise e => (Raise e, σ)
  end.

Ltac run_method :=
  unfold step, rebind, GDGJson.df, GDGJson.assign, table_of;
  unfold mbind, M_bind, mret, M_ret, lift, raise, get_df, read_table,
    new_table, set_df; simpl.

(** The name the prefixing rule gives to the column of field [f]. *)
Definition field_column_name (c : string) (prefix : option string) (f : string)
    : string :=
  match prefix with
  | None => (c +:+ "_") +:+ f
  | Some "" => f
  | Some p => (p +:+ "_") +:+ f
  end.

(** A struct column [c] with the single field [a] beside a column that
    already has the name [c_a]. *)
Definition clash : pl.DataFrame :=
  [ pl.mkSeries "c" (TStruct [("a", TInt64)])
      [VStruct [("a", VInt 1)]; VStruct [("a", VInt 2)]];
    pl.mkSeries "c_a" TInt64 [VInt 7; VInt 8] ].

(** What [explode] on the list column [s] makes of a column [s']. *)
Definition exploded (s : pl.Series) (inner : dtype) (s' : pl.Series) : pl.Series :=
  if String.eqb (pl.name s') (pl.name s)
  then pl.mkSeries (pl.name s') inner (concat (map pl.explode_cell (pl.values s')))
  else pl.mkSeries (pl.name s') (pl.dtype_of s')
         (pl.repeat_cells (pl.values s) (pl.values s')).

(** Orders with their items: the second order has no item. *)
Definition item (sku : string) (qty : Z) : value :=
  VStruct [("sku", VStr sku); ("qty", VInt qty)].

Definition orders : pl.DataFrame :=
  [ pl.mkSeries "order" TInt64 [VInt 1; VInt 2; VInt 3];
    pl.mkSeries "items" (TList (TStruct [("sku", TString); ("qty", TInt64)]))
      [ VList [item "a" 1; item "b" 2]; VList []; VList [item "c" 3] ] ].

(** The values under a key have a type the engine can infer and keep: the
    cells of the first [infer_schema_length] records have a common type, and
    every later cell fits it. *)
Definition typed_column (vs : list value) : Prop :=
  exists t,
    infer_dtype (take pl.infer_schema_length vs) TNull = Some t
    /\ Forall (fun v => fits t v = true) (List.skipn pl.infer_schema_length vs).

(** The orders beside a column that already has the name [items_sku]. *)
Definition orders_clash : pl.DataFrame :=
  orders ++ [ pl.mkSeries "items_sku" TString [VStr "p"; VStr "q"; VStr "r"] ].

(** Records are well formed when they are uniform: all have the same keys
    (in any order, at least one, none twice). *)
Definition uniform_records (rows : list pl.row) : Prop :=
  exists keys,
    (rows <> [] -> keys <> [])
    /\ NoDup keys
    /\ Forall (fun r => map fst r ≡ₚ keys) rows.

(** Uniform records whose values under each key form a typed column. *)
Definition well_formed (rows : list pl.row) : Prop :=
  exists keys,
    (rows <> [] -> keys <> [])
    /\ NoDup keys
    /\ Forall (fun r => map fst r ≡ₚ keys) rows
    /\ Forall (fun k => typed_column (pl.cells k rows)) keys.

(** The frame [read_json] builds from uniform records with keys [ks]. *)
Definition frame_of (ks : list string) (rows : list pl.row) : pl.DataFrame :=
  map (fun k => pl.mkSeries k
                  (default TNull
                     (infer_dtype (take pl.infer_schema_length (pl.cells k rows))
                        TNull))
                  (pl.cells k rows)) ks.

(** One hundred records with a null under the key [a], then one with an
    integer. *)
Definition late_integer : value :=
  VList (replicate 100 (VStruct [("a", VNull)]) ++ [VStruct [("a", VInt 5)]]).

(** Two records with the same keys in different order, one with a null. *)
Definition people : value :=
  VList [ VStruct [("name", VStr "ada"); ("tags", VList [VStr "x"; VStr "y"])];
          VStruct [("tags", VList []); ("name", VNull)] ].

(** ** Notions used in the further properties *)

(** A frame with its columns renamed along a mapping: a column whose name is
    a key takes the value as its name, cells and types stay. *)
Definition renamed (m : gmap string string) (d : pl.DataFrame) : pl.DataFrame :=
  map (fun s => pl.mkSeries (default (pl.name s) (m !! pl.name s))
                  (pl.dtype_of s) (pl.values s)) d.

(** The one column [a] takes the name [b]. *)
Definition renamed_one (a b : string) (d : pl.DataFrame) : pl.DataFrame :=
  map (fun s => if String.eqb (pl.name s) a
                then pl.mkSeries b (pl.dtype_of s) (pl.values s) else s) d.

(** A frame as the engine keeps it: no two columns of one name, and as many
    cells in every column as the frame has rows. *)
Definition table_ok (d : pl.DataFrame) : Prop :=
  NoDup (pl.columns d)
  /\ Forall (fun s => length (pl.values s) = pl.height d) d.

(** The number of rows a column of list cells explodes into. *)
Definition exploded_height (vs : list value) : nat :=
  sum_list (map (fun v => length (pl.explode_cell v)) vs).

(** Every column has [n] cells. *)
Definition uniform (n : nat) (d : pl.DataFrame) : Prop :=
  Forall (fun s => length (pl.values s) = n) d.

(** The new name of a column under positional renaming: the partner of the
    first position at which the name occurs, or the name itself. *)
Definition positional (from_names to_names : list string) (n : string) : string :=
  default n (assoc n (zip from_names to_names)).

(** * Properties *)

(** ** Names, lookups and [mapR] *)

Lemma elem_of_map {A B} (f : A -> B) (l : list A) (y : B) :
  y ∈ map f l <-> exists x, y = f x /\ x ∈ l.
Proof.
  rewrite list_elem_of_In, in_map_iff. split.
  - intros (x & <- & Hx). exists x. now rewrite list_elem_of_In.
  - intros (x & -> & Hx). exists x. now rewrite <- list_elem_of_In.
Qed.

Lemma has_name_spec (c : string) (l : list string) :
  pl.has_name c l = true <-> c ∈ l.
Proof.
  unfold pl.has_name. induction l as [|x l IH]; simpl.
  - split; [discriminate | intros H; inversion H].
  - rewrite orb_true_iff, IH, elem_of_cons, String.eqb_eq. tauto.
Qed.

Lemma has_name_false (c : string) (l : list string) :
  pl.has_name c l = false <-> c ∉ l.
Proof.
  rewrite <- has_name_spec. destruct (pl.has_name c l); split; congruence.
Qed.

Lemma distinct_spec (l : list string) : pl.distinct l = true <-> NoDup l.
Proof.
  induction l as [|x l IH]; simpl.
  - split; [constructor | reflexivity].
  - rewrite andb_true_iff, negb_true_iff, has_name_false, IH, NoDup_cons.
    tauto.
Qed.

Lemma distinct_false (l : list string) : pl.distinct l = false <-> ~ NoDup l.
Proof.
  rewrite <- distinct_spec. destruct (pl.distinct l); split; congruence.
Qed.

Lemma assoc_Some_elem {A} (k : string) (a : A) (l : list (string * A)) :
  assoc k l = Some a -> (k, a) ∈ l.
Proof.
  induction l as [|[k' a'] l IH]; simpl; [discriminate|].
  destruct (String.eqb_spec k k') as [->|Hne].
  - intros [= ->]. left.
  - intros H. right. auto.
Qed.

Lemma assoc_None {A} (k : string) (l : list (string * A)) :
  assoc k l = None <-> k ∉ map fst l.
Proof.
  induction l as [|[k' a'] l IH]; simpl.
  - split; [intros _ H; inversion H | reflexivity].
  - rewrite not_elem_of_cons. destruct (String.eqb_spec k k') as [->|Hne].
    + split; [discriminate | tauto].
    + rewrite IH. tauto.
Qed.

Lemma assoc_NoDup {A} (k : string) (a : A) (l : list (string * A)) :
  NoDup (map fst l) -> (k, a) ∈ l -> assoc k l = Some a.
Proof.
  induction l as [|[k' a'] l IH]; simpl; intros Hnd Hin.
  - inversion Hin.
  - apply NoDup_cons in Hnd as [Hk' Hnd].
    apply elem_of_cons in Hin as [[= -> ->]|Hin].
    + now rewrite String.eqb_refl.
    + destruct (String.eqb_spec k k') as [->|Hne]; [|auto].
      exfalso. apply Hk'. apply elem_of_map. now exists (k', a).
Qed.

Lemma mapR_app {A B} (f : A -> result B) (xs ys : list A) (us vs : list B) :
  mapR f xs = Ok us -> mapR f ys = Ok vs -> mapR f (xs ++ ys) = Ok (us ++ vs).
Proof.
  revert us. induction xs as [|x xs IH]; simpl; intros us.
  - now intros [= <-].
  - destruct (f x) as [y|]; [|discriminate].
    destruct (mapR f xs) as [us'|]; [|discriminate].
    intros [= <-] Hys. now rewrite (IH us' eq_refl Hys).
Qed.

Lemma mapR_map {A B} (f : A -> result B) (g : A -> B) (xs : list A) :
  (forall x, x ∈ xs -> f x = Ok (g x)) -> mapR f xs = Ok (map g xs).
Proof.
  induction xs as [|x xs IH]; simpl; intros H; [reflexivity|].
  rewrite (H x) by left. rewrite IH; [reflexivity|].
  intros y Hy. apply H. now right.
Qed.

Lemma mapR_compose {A B C} (f : B -> result C) (h : A -> B) (xs : list A) :
  mapR f (map h xs) = mapR (fun x => f (h x)) xs.
Proof.
  induction xs as [|x xs IH]; simpl; [reflexivity|]. now rewrite IH.
Qed.

Lemma mapR_length {A B} (f : A -> result B) (xs : list A) (ys : list B) :
  mapR f xs = Ok ys -> length ys = length xs.
Proof.
  revert ys. induction xs as [|x xs IH]; simpl; intros ys.
  - now intros [= <-].
  - destruct (f x); [|discriminate]. destruct (mapR f xs); [|discriminate].
    intros [= <-]. simpl. f_equal. now apply IH.
Qed.

Lemma get_column_Some (d : pl.DataFrame) (c : string) (s : pl.Series) :
  pl.get_column d c = Some s -> s ∈ d /\ pl.name s = c.
Proof.
  unfold pl.get_column. intros H. apply find_some in H as [Hin Heq].
  apply String.eqb_eq in Heq. split; [now apply list_elem_of_In | assumption].
Qed.

Lemma get_column_None (d : pl.DataFrame) (c : string) :
  pl.get_column d c = None <-> c ∉ pl.columns d.
Proof.
  unfold pl.get_column, pl.columns. induction d as [|s d IH]; simpl.
  - split; [intros _ H; inversion H | reflexivity].
  - rewrite not_elem_of_cons. destruct (String.eqb_spec (pl.name s) c) as [<-|Hne].
    + split; [discriminate | tauto].
    + rewrite IH. split; [intros H; split; [congruence | exact H] | tauto].
Qed.

Lemma get_column_elem (d : pl.DataFrame) (s : pl.Series) :
  NoDup (pl.columns d) -> s ∈ d -> pl.get_column d (pl.name s) = Some s.
Proof.
  unfold pl.get_column, pl.columns.
  induction d as [|s' d IH]; simpl; intros Hnd Hin; [inversion Hin|].
  apply NoDup_cons in Hnd as [Hs' Hnd].
  apply elem_of_cons in Hin as [->|Hin]; [now rewrite String.eqb_refl|].
  destruct (String.eqb_spec (pl.name s') (pl.name s)) as [Heq|Hne]; [|auto].
  exfalso. apply Hs'. rewrite Heq. apply elem_of_map. now exists s.
Qed.

(** ** The expansion of a struct column *)


Lemma columns_siblings d c :
  pl.columns (siblings d c)
  = List.filter (fun c' => negb (String.eqb c' c)) (pl.columns d).
Proof.
  unfold pl.columns, siblings. induction d as [|s d IH]; simpl; [reflexivity|].
  destruct (String.eqb (pl.name s) c); simpl; now rewrite IH.
Qed.

Lemma eval_unnest_exprs d c s fields al :
  NoDup (pl.columns d) ->
  pl.get_column d c = Some s ->
  pl.dtype_of s = TStruct fields ->
  NoDup (map fst fields) ->
  mapR (pl.eval d) (GDGJson.unnest_exprs d c al fields)
  = Ok (field_columns s al fields ++ siblings d c).
Proof.
  intros Hnd Hc Ht Hf. unfold GDGJson.unnest_exprs. apply mapR_app.
  - rewrite mapR_map with
      (g := fun e => match e with
                     | pl.alias (pl.struct_field _ f) n =>
                         pl.mkSeries n (default TNull (assoc f fields))
                           (map (pl.field_value f) (pl.values s))
                     | _ => s
                     end).
    + unfold field_columns. rewrite map_map. f_equal.
      apply map_ext_in. intros [f t] Hin. simpl.
      rewrite (assoc_NoDup f t fields Hf); [reflexivity|].
      now apply list_elem_of_In.
    + intros e He. apply elem_of_map in He as ([f t] & -> & Hin).
      simpl. rewrite Hc, Ht. now rewrite (assoc_NoDup f t fields Hf Hin).
  - rewrite <- columns_siblings. unfold pl.columns. rewrite !mapR_compose.
    rewrite mapR_map with (g := fun s' => s'); [now rewrite map_id|].
    intros s' Hs'. simpl. rewrite get_column_elem; [reflexivity|assumption|].
    unfold siblings in Hs'. apply list_elem_of_In, filter_In in Hs' as [Hs' _].
    now apply list_elem_of_In.
Qed.

Lemma struct_fields_column d c s fields :
  pl.get_column d c = Some s ->
  pl.dtype_of s = TStruct fields ->
  GDGJson.struct_fields d c = Ok fields.
Proof.
  unfold GDGJson.struct_fields, pl.get_column, pl.schema.
  induction d as [|s' d IH]; simpl; [discriminate|].
  rewrite (String.eqb_sym c).
  destruct (String.eqb (pl.name s') c).
  - intros [= ->] ->. reflexivity.
  - exact IH.
Qed.

Lemma output_names_unnest_exprs d c al fields :
  map pl.output_name (GDGJson.unnest_exprs d c al fields)
  = map (fun f => al +:+ f.1) fields ++ pl.columns (siblings d c).
Proof.
  unfold GDGJson.unnest_exprs. rewrite map_app, !map_map, columns_siblings.
  f_equal. simpl. apply map_id.
Qed.

Lemma unnest_result_ok d c prefix s fields :
  NoDup (pl.columns d) ->
  pl.get_column d c = Some s ->
  pl.dtype_of s = TStruct fields ->
  NoDup (map fst fields) ->
  NoDup (map (fun f => GDGJson.alias_of c prefix +:+ f.1) fields
         ++ pl.columns (siblings d c)) ->
  unnest_result d c prefix
  = Ok (field_columns s (GDGJson.alias_of c prefix) fields ++ siblings d c).
Proof.
  intros Hnd Hc Ht Hf Hout. unfold unnest_result, pl.select.
  rewrite (struct_fields_column d c s fields Hc Ht).
  rewrite output_names_unnest_exprs.
  apply distinct_spec in Hout. rewrite Hout.
  exact (eval_unnest_exprs d c s fields _ Hnd Hc Ht Hf).
Qed.


(** ** Running the methods *)

Lemma lookup_total_snoc {A} `{!Inhabited A} (l : list A) (x : A) :
  (l ++ [x]) !!! length l = x.
Proof. now rewrite lookup_total_app_r, Nat.sub_diag. Qed.

Lemma table_of_rebind σ self d :
  self < length (adapters σ) -> table_of (rebind σ self d) self = d.
Proof.
  intros H. unfold table_of, rebind. simpl.
  rewrite list_lookup_total_insert_eq by assumption.
  now rewrite lookup_total_app_r, Nat.sub_diag.
Qed.

Lemma valid_rebind σ self d :
  self < length (adapters σ) -> valid (rebind σ self d) self.
Proof.
  intros H. unfold valid, rebind. simpl. rewrite length_insert. split; [assumption|].
  rewrite list_lookup_total_insert_eq by assumption.
  rewrite length_app. simpl. lia.
Qed.

Lemma expand_column_run self c prefix σ :
  GDGJson.expand_column self c prefix σ
  = step σ self (unnest_result (table_of σ self) c prefix).
Proof.
  unfold GDGJson.expand_column, GDGJson.__unnest_with_prefix, unnest_result.
  run_method.
  destruct (GDGJson.struct_fields _ c) as [fields|e]; [|reflexivity].
  now destruct (pl.select _ _).
Qed.

Lemma unnest_column_as_root_run self c σ :
  GDGJson.unnest_column_as_root self c σ
  = match pl.select (table_of σ self) [pl.col c] with
    | Raise e => (Raise e, σ)
    | Ok d1 =>
        step (rebind σ self d1) self
          (unnest_result (table_of (rebind σ self d1) self) c (Some ""))
    end.
Proof.
  unfold GDGJson.unnest_column_as_root, GDGJson.__unnest_with_prefix,
    unnest_result.
  run_method.
  destruct (pl.select _ [pl.col c]) as [d1|e]; [|reflexivity]. simpl.
  destruct (GDGJson.struct_fields _ c) as [fields|e]; [|reflexivity].
  now destruct (pl.select _ _).
Qed.

Lemma unnest_column_as_rows_run self c prefix σ :
  GDGJson.unnest_column_as_rows self c prefix σ
  = match pl.explode (table_of σ self) c with
    | Raise e => (Raise e, σ)
    | Ok d1 =>
        step (rebind σ self d1) self
          (unnest_result (table_of (rebind σ self d1) self) c prefix)
    end.
Proof.
  unfold GDGJson.unnest_column_as_rows, GDGJson.__unnest_with_prefix,
    unnest_result.
  run_method.
  destruct (pl.explode _ c) as [d1|e]; [|reflexivity]. simpl.
  destruct (GDGJson.struct_fields _ c) as [fields|e]; [|reflexivity].
  now destruct (pl.select _ _).
Qed.

Lemma rename_column_run self a b σ :
  GDGJson.rename_column self a b σ
  = step σ self (pl.rename (table_of σ self) {[ a := b ]}).
Proof.
  unfold GDGJson.rename_column. run_method. now destruct (pl.rename _ _).
Qed.

Lemma rename_columns_run self from_names to_names σ :
  GDGJson.rename_columns self from_names to_names σ
  = step σ self (pl.rename (table_of σ self) (dict_zip from_names to_names)).
Proof.
  unfold GDGJson.rename_columns. run_method. now destruct (pl.rename _ _).
Qed.

Lemma drop_run self cs σ :
  GDGJson.drop self cs σ
  = step σ self (pl.drop (table_of σ self) (names_of cs)).
Proof.
  unfold GDGJson.drop. run_method. now destruct (pl.drop _ _).
Qed.

Lemma duplicate_column_run self a b σ :
  GDGJson.duplicate_column self a b σ
  = step σ self (pl.with_columns (table_of σ self) (pl.alias (pl.col a) b)).
Proof.
  unfold GDGJson.duplicate_column. run_method.
  now destruct (pl.with_columns _ _).
Qed.

Lemma select_in_place_run self args σ :
  GDGJson.select_in_place self args σ
  = step σ self (pl.select (table_of σ self) args).
Proof.
  unfold GDGJson.select_in_place. run_method. now destruct (pl.select _ _).
Qed.

Lemma set_constant_run self c v σ :
  GDGJson.set_constant self c v σ = (Raise TypeError, σ).
Proof. reflexivity. Qed.

Lemma copy_run self σ : GDGJson.copy self σ = (Raise ValueError, σ).
Proof. reflexivity. Qed.

Lemma select_run self args b σ :
  GDGJson.select self args b σ
  = if b then (Raise ValueError, σ)
    else step σ self (pl.select (table_of σ self) args).
Proof.
  destruct b; [reflexivity|]. apply select_in_place_run.
Qed.

(** ** Expansion of struct columns *)

Lemma alias_of_field c prefix f :
  GDGJson.alias_of c prefix +:+ f = field_column_name c prefix f.
Proof. destruct prefix as [[|a p]|]; reflexivity. Qed.

Lemma field_names_rule c prefix (fields : list (string * dtype)) :
  map (fun f => GDGJson.alias_of c prefix +:+ f.1) fields
  = map (fun f => field_column_name c prefix f.1) fields.
Proof. apply map_ext. intros f. apply alias_of_field. Qed.

(** C2, as stated, fails: on a table whose struct column [c] has a field [a]
    and which also has a column [c_a], [expand_column("c")] replaces nothing;
    it raises and the adapter keeps the table it had. *)
Lemma expand_column_clash_not_replaced :
  pl.get_column clash "c"
  = Some (pl.mkSeries "c" (TStruct [("a", TInt64)])
            [VStruct [("a", VInt 1)]; VStruct [("a", VInt 2)]])
  /\ GDGJson.expand_column 0 "c" None (store_of clash)
     = (Raise DuplicateError, store_of clash)
  /\ ~ exists σ', GDGJson.expand_column 0 "c" None (store_of clash) = (Ok 0, σ').
Proof.
  split; [reflexivity|]. split; [reflexivity|].
  intros [σ' H]. vm_compute in H. discriminate H.
Qed.

(** C2, amended: for every table with a struct-typed column [c], when the
    column names and the field names are plain (none is a pattern of the
    engine) and the names the prefixing rule gives to the field columns
    differ from each other and from the names of the other columns,
    [expand_column(c, prefix)] succeeds and the adapter then holds one column
    per struct field, named [c_field] for the unset prefix, [field] for the
    empty prefix and [prefix_field] otherwise, holding that field of every
    cell, followed by all other columns unchanged and in their original
    order. *)
Theorem expand_column_replaces σ self c prefix s fields :
  valid σ self ->
  NoDup (pl.columns (table_of σ self)) ->
  pl.all_plain (pl.columns (table_of σ self)) ->
  pl.all_plain (map fst fields) ->
  pl.get_column (table_of σ self) c = Some s ->
  pl.dtype_of s = TStruct fields ->
  NoDup (map fst fields) ->
  NoDup (map (fun f => field_column_name c prefix f.1) fields
         ++ List.filter (fun c' => negb (String.eqb c' c))
              (pl.columns (table_of σ self))) ->
  exists σ',
    GDGJson.expand_column self c prefix σ = (Ok self, σ')
    /\ table_of σ' self
       = map (fun f => pl.mkSeries (field_column_name c prefix f.1) f.2
                         (map (pl.field_value f.1) (pl.values s))) fields
         ++ List.filter (fun s' => negb (String.eqb (pl.name s') c))
              (table_of σ self).
Proof.
  intros [Hself _] Hnd _ _ Hc Ht Hf Hout.
  rewrite <- field_names_rule, <- columns_siblings in Hout.
  rewrite expand_column_run.
  rewrite (unnest_result_ok _ c prefix s fields Hnd Hc Ht Hf Hout). simpl.
  eexists. split; [reflexivity|].
  rewrite table_of_rebind by assumption. unfold field_columns, siblings.
  f_equal. apply map_ext. intros f. now rewrite alias_of_field.
Qed.

Lemma expand_column_replaces_witness :
  exists σ',
    GDGJson.expand_column 0 "c" (Some "x") (store_of sample) = (Ok 0, σ')
    /\ table_of σ' 0
       = [ pl.mkSeries "x_a" TInt64 [VInt 10; VInt 20];
           pl.mkSeries "x_b" TInt64 [VInt 11; VInt 21];
           pl.mkSeries "id" TInt64 [VInt 1; VInt 2];
           pl.mkSeries "k" TString [VStr "x"; VStr "y"] ].
Proof.
  apply (expand_column_replaces (store_of sample) 0 "c" (Some "x")
           (pl.mkSeries "c" T_ab [struct_ab 10 11; struct_ab 20 21])
           [("a", TInt64); ("b", TInt64)]).
  - split; simpl; lia.
  - apply distinct_spec. reflexivity.
  - reflexivity.
  - reflexivity.
  - reflexivity.
  - reflexivity.
  - apply distinct_spec. reflexivity.
  - apply distinct_spec. reflexivity.
Defined.





(** ** Failure and the state it leaves *)

Lemma step_raise σ self r e σ' : step σ self r = (Raise e, σ') -> σ' = σ.
Proof. destruct r; simpl; congruence. Qed.

(** C3, as stated, fails: [unnest_column_as_root] on a column that is not a
    struct raises, and the adapter is left with the projected table (the
    columns [c] and [k] of the sample are gone). *)
Lemma unnest_column_as_root_partial :
  exists e σ',
    GDGJson.unnest_column_as_root 0 "id" (store_of sample) = (Raise e, σ')
    /\ table_of (store_of sample) 0 = sample
    /\ table_of σ' 0 = [ pl.mkSeries "id" TInt64 [VInt 1; VInt 2] ]
    /\ table_of σ' 0 <> table_of (store_of sample) 0.
Proof.
  exists AttributeError. eexists. split; [reflexivity|].
  split; [reflexivity|]. split; [reflexivity|]. discriminate.
Qed.

(** C3, amended: for every adapter state and every transform, names being
    plain (none a pattern of the engine), if the call raises then the store
    is exactly as before the call, with two exceptions.  When
    [unnest_column_as_root] raises after its projection on the column
    succeeded, the adapter holds the projected table, newly assigned and
    nothing else changed; when [unnest_column_as_rows] raises after its
    explode succeeded, the adapter holds the exploded table in the same
    way. *)
Theorem transform_failure_state σ self t e σ' :
  valid σ self ->
  pl.plain_frame (table_of σ self) ->
  plain_call t ->
  call self t σ = (Raise e, σ') ->
  match t with
  | UnnestColumnAsRoot c =>
      match pl.select (table_of σ self) [pl.col c] with
      | Ok d1 => σ' = rebind σ self d1 /\ table_of σ' self = d1
      | Raise _ => σ' = σ
      end
  | UnnestColumnAsRows c _ =>
      match pl.explode (table_of σ self) c with
      | Ok d1 => σ' = rebind σ self d1 /\ table_of σ' self = d1
      | Raise _ => σ' = σ
      end
  | _ => σ' = σ
  end.
Proof.
  intros [Hself _] _ _.
  destruct t as [c|c p|a b|a b|cs|a b|c p|c v|args b]; cbn [call].
  - rewrite unnest_column_as_root_run.
    destruct (pl.select _ [pl.col c]) as [d1|e1]; [|congruence].
    intros H%step_raise. subst σ'. split; [reflexivity|].
    now rewrite table_of_rebind.
  - rewrite unnest_column_as_rows_run.
    destruct (pl.explode _ c) as [d1|e1]; [|congruence].
    intros H%step_raise. subst σ'. split; [reflexivity|].
    now rewrite table_of_rebind.
  - rewrite rename_column_run. apply step_raise.
  - rewrite rename_columns_run. apply step_raise.
  - rewrite drop_run. apply step_raise.
  - rewrite duplicate_column_run. apply step_raise.
  - rewrite expand_column_run. apply step_raise.
  - rewrite set_constant_run. congruence.
  - rewrite select_run. destruct b; [congruence | apply step_raise].
Qed.

Lemma transform_failure_state_witness :
  mkStore [sample; [pl.mkSeries "id" TInt64 [VInt 1; VInt 2]]] [1]
  = rebind (store_of sample) 0 [pl.mkSeries "id" TInt64 [VInt 1; VInt 2]]
  /\ table_of (mkStore [sample; [pl.mkSeries "id" TInt64 [VInt 1; VInt 2]]] [1]) 0
     = [pl.mkSeries "id" TInt64 [VInt 1; VInt 2]].
Proof.
  apply (transform_failure_state (store_of sample) 0 (UnnestColumnAsRoot "id")
           AttributeError).
  - split; simpl; lia.
  - reflexivity.
  - reflexivity.
  - reflexivity.
Defined.

(** ** Copies *)

(** C4: [copy()] passes the list of rows that [to_json] returns to the
    constructor, which accepts a [str], a [dict] or a table and raises
    [ValueError] on anything else.  For every adapter, [copy()] raises and no
    new adapter exists afterwards. *)
Theorem copy_raises σ self : GDGJson.copy self σ = (Raise ValueError, σ).
Proof. reflexivity. Qed.

(** The deep-copy protocol of the same class does what [copy()] is meant to
    do: a new adapter on a new table object with the same columns. *)
Lemma deepcopy_independent σ self :
  exists σ',
    GDGJson.__deepcopy__ self σ = (Ok (length (adapters σ)), σ')
    /\ table_of σ' (length (adapters σ)) = table_of σ self
    /\ adapters σ' !!! length (adapters σ) = length (tables σ)
    /\ (valid σ self -> adapters σ' !!! length (adapters σ) <> adapters σ' !!! self).
Proof.
  eexists. split; [reflexivity|]. unfold table_of. simpl.
  assert (Hnew : (adapters σ ++ [length (tables σ)]) !!! length (adapters σ)
                 = length (tables σ)).
  { rewrite lookup_total_app_r, Nat.sub_diag by lia. reflexivity. }
  rewrite Hnew. split; [|split; [reflexivity|]].
  - rewrite lookup_total_app_r, Nat.sub_diag by lia. reflexivity.
  - intros [Hs Ht]. rewrite lookup_total_app_l by assumption. lia.
Qed.

(** ** Constant columns *)

(** C8: [set_constant] assigns to the frame by column name, which the engine
    refuses.  For every adapter, column name and value the call raises
    [TypeError]; no column is created or changed. *)
Theorem set_constant_raises σ self column_name v :
  GDGJson.set_constant self column_name v σ = (Raise TypeError, σ).
Proof. reflexivity. Qed.

(** ** The caller's table *)

Lemma step_tables σ self r :
  exists extra, tables (step σ self r).2 = tables σ ++ extra.
Proof.
  destruct r as [d|e]; simpl.
  - now exists [d].
  - exists []. now rewrite app_nil_r.
Qed.

(** A call only ever adds table objects. *)
Lemma call_tables σ self t :
  exists extra, tables (call self t σ).2 = tables σ ++ extra.
Proof.
  destruct t as [c|c p|a b|a b|cs|a b|c p|c v|args b]; cbn [call].
  - rewrite unnest_column_as_root_run.
    destruct (pl.select _ [pl.col c]) as [d1|e1].
    + destruct (step_tables (rebind σ self d1) self
                  (unnest_result (table_of (rebind σ self d1) self) c (Some "")))
        as [extra ->].
      exists ([d1] ++ extra). simpl. now rewrite <- app_assoc.
    + exists []. now rewrite app_nil_r.
  - rewrite unnest_column_as_rows_run.
    destruct (pl.explode _ c) as [d1|e1].
    + destruct (step_tables (rebind σ self d1) self
                  (unnest_result (table_of (rebind σ self d1) self) c p))
        as [extra ->].
      exists ([d1] ++ extra). simpl. now rewrite <- app_assoc.
    + exists []. now rewrite app_nil_r.
  - rewrite rename_column_run. apply step_tables.
  - rewrite rename_columns_run. apply step_tables.
  - rewrite drop_run. apply step_tables.
  - rewrite duplicate_column_run. apply step_tables.
  - rewrite expand_column_run. apply step_tables.
  - rewrite set_constant_run. exists []. now rewrite app_nil_r.
  - rewrite select_run. destruct b; [|apply step_tables].
    exists []. now rewrite app_nil_r.
Qed.

Lemma call_all_tables σ self ts :
  exists extra, tables (call_all self ts σ) = tables σ ++ extra.
Proof.
  revert σ. induction ts as [|t ts IH]; intros σ; simpl.
  - exists []. now rewrite app_nil_r.
  - destruct (IH (call self t σ).2) as [extra2 ->].
    destruct (call_tables σ self t) as [extra1 ->].
    exists (extra1 ++ extra2). now rewrite app_assoc.
Qed.

(** A call that succeeds leaves the adapter on a table object that did not
    exist before the call. *)
Lemma call_rebinds σ self t r σ' :
  self < length (adapters σ) ->
  call self t σ = (Ok r, σ') ->
  length (tables σ) <= adapters σ' !!! self.
Proof.
  intros Hself.
  assert (Hstep : forall σ0 x,
            self < length (adapters σ0) ->
            step σ0 self x = (Ok r, σ') ->
            length (tables σ0) <= adapters σ' !!! self).
  { intros σ0 [d|e0] H0; simpl; [|discriminate]. intros [= _ <-]. simpl.
    now rewrite list_lookup_total_insert_eq. }
  destruct t as [c|c p|a b|a b|cs|a b|c p|c v|args b]; cbn [call].
  - rewrite unnest_column_as_root_run.
    destruct (pl.select _ [pl.col c]) as [d1|e1]; [|discriminate].
    intros H%Hstep; [|simpl; now rewrite length_insert].
    simpl in H. rewrite length_app in H. lia.
  - rewrite unnest_column_as_rows_run.
    destruct (pl.explode _ c) as [d1|e1]; [|discriminate].
    intros H%Hstep; [|simpl; now rewrite length_insert].
    simpl in H. rewrite length_app in H. lia.
  - rewrite rename_column_run. now apply Hstep.
  - rewrite rename_columns_run. now apply Hstep.
  - rewrite drop_run. now apply Hstep.
  - rewrite duplicate_column_run. now apply Hstep.
  - rewrite expand_column_run. now apply Hstep.
  - rewrite set_constant_run. discriminate.
  - rewrite select_run. destruct b; [discriminate | now apply Hstep].
Qed.

(** C10: an adapter constructed from a pre-built table holds the caller's
    table object itself, and for every sequence of transform calls on it,
    failed ones included, the caller's table object has the columns it had.
    Each call that succeeds rebinds the adapter to a table object that did
    not exist before the call; no call writes to an existing one. *)
Theorem transforms_keep_caller_table σ l d self σ1 ts :
  tables σ !! l = Some d ->
  GDGJson.__init__ (PyDataFrame l) σ = (Ok self, σ1) ->
  adapters σ1 !! self = Some l
  /\ table_of σ1 self = d
  /\ tables (call_all self ts σ1) !! l = Some d
  /\ forall t σ2 r σ3,
       self < length (adapters σ2) ->
       call self t σ2 = (Ok r, σ3) ->
       length (tables σ2) <= adapters σ3 !!! self
       /\ exists extra, tables σ3 = tables σ2 ++ extra.
Proof.
  intros Hd [= <- <-]. unfold table_of. simpl.
  rewrite lookup_total_snoc.
  split; [|split; [|split]].
  - rewrite lookup_app_r, Nat.sub_diag by lia. reflexivity.
  - now apply list_lookup_total_correct.
  - destruct (call_all_tables (mkStore (tables σ) (adapters σ ++ [l]))
                (length (adapters σ)) ts) as [extra ->].
    simpl. now apply lookup_app_l_Some.
  - intros t σ2 r σ3 Hself Hcall. split.
    + exact (call_rebinds σ2 _ t r σ3 Hself Hcall).
    + destruct (call_tables σ2 (length (adapters σ)) t) as [extra Hex].
      rewrite Hcall in Hex. now exists extra.
Qed.

Lemma transforms_keep_caller_table_witness :
  tables (call_all 0
            [ ExpandColumn "c" None; SetConstant "z" (VInt 0);
              Drop (OneName "id"); RenameColumn "k" "key" ]
            (mkStore [sample] [0])) !! 0 = Some sample.
Proof.
  apply (transforms_keep_caller_table (mkStore [sample] []) 0 sample 0).
  - reflexivity.
  - reflexivity.
Defined.

(** ** Renaming *)

Lemma zip_take_min (ks vs : list string) :
  zip (take (length ks `min` length vs) ks) (take (length ks `min` length vs) vs)
  = zip ks vs.
Proof.
  revert vs. induction ks as [|k ks IH]; intros [|v vs]; simpl; try reflexivity.
  now rewrite IH.
Qed.

Lemma dict_zip_take_min (ks vs : list string) :
  dict_zip (take (length ks `min` length vs) ks)
           (take (length ks `min` length vs) vs)
  = dict_zip ks vs.
Proof. unfold dict_zip. now rewrite zip_take_min. Qed.

Lemma fold_insert_is_Some (l : list (string * string)) (m : gmap string string)
    (k : string) :
  is_Some (m !! k) \/ k ∈ map fst l ->
  is_Some (fold_left (fun m kv => <[kv.1 := kv.2]> m) l m !! k).
Proof.
  revert m. induction l as [|[k' v'] l IH]; intros m; simpl.
  - intros [H|H]; [assumption | inversion H].
  - intros H. apply IH. destruct (decide (k' = k)) as [->|Hne].
    + left. rewrite lookup_insert_eq. eauto.
    + rewrite lookup_insert_ne by assumption.
      destruct H as [H|H]; [now left|]. right.
      apply elem_of_cons in H as [H|H]; [congruence | assumption].
Qed.

Lemma fst_zip_take_min (ks vs : list string) :
  map fst (zip ks vs) = take (length ks `min` length vs) ks.
Proof.
  revert vs. induction ks as [|k ks IH]; intros [|v vs]; simpl; try reflexivity.
  now rewrite IH.
Qed.

Lemma dict_zip_key (ks vs : list string) (k : string) :
  k ∈ take (length ks `min` length vs) ks ->
  k ∈ map fst (map_to_list (dict_zip ks vs)).
Proof.
  intros Hk. rewrite <- fst_zip_take_min in Hk.
  destruct (fold_insert_is_Some (zip ks vs) ∅ k (or_intror Hk)) as [v Hv].
  apply elem_of_map. exists (k, v). split; [reflexivity|].
  now apply elem_of_map_to_list.
Qed.

Lemma fold_insert_origin (l : list (string * string)) (m : gmap string string)
    (k v : string) :
  fold_left (fun m kv => <[kv.1 := kv.2]> m) l m !! k = Some v ->
  m !! k = Some v \/ (k, v) ∈ l.
Proof.
  revert m. induction l as [|[k' v'] l IH]; intros m; simpl; [now left|].
  intros H. apply IH in H as [H|H]; [|right; now right].
  destruct (decide (k' = k)) as [->|Hne].
  - rewrite lookup_insert_eq in H. injection H as ->. right. left.
  - rewrite lookup_insert_ne in H by assumption. now left.
Qed.

Lemma dict_zip_paired (ks vs : list string) (k : string) :
  k ∈ take (length ks `min` length vs) ks ->
  exists v, dict_zip ks vs !! k = Some v /\ (k, v) ∈ zip ks vs.
Proof.
  intros Hk. rewrite <- fst_zip_take_min in Hk.
  destruct (fold_insert_is_Some (zip ks vs) ∅ k (or_intror Hk)) as [v Hv].
  exists v. split; [exact Hv|].
  apply fold_insert_origin in Hv as [Hv|Hv]; [|assumption].
  rewrite lookup_empty in Hv. discriminate.
Qed.

Lemma rename_missing_key d (m : gmap string string) k v :
  NoDup (pl.columns (renamed m d)) ->
  m !! k = Some v ->
  k <> v ->
  k ∉ pl.columns d ->
  pl.rename d m = Raise ColumnNotFoundError.
Proof.
  intros Hnd Hkv Hne Hcol. unfold pl.rename. fold (renamed m d).
  apply distinct_spec in Hnd. rewrite Hnd.
  destruct (forallb _ _) eqn:Hall; [|reflexivity].
  exfalso. rewrite forallb_forall in Hall.
  specialize (Hall (k, v)). simpl in Hall.
  apply elem_of_map_to_list, list_elem_of_In in Hkv.
  apply Hall, orb_true_iff in Hkv as [Heq|Hin].
  - apply String.eqb_eq in Heq. contradiction.
  - apply has_name_spec in Hin. contradiction.
Qed.

(** C5, as stated, fails: with two names to rename, the second of which is
    not a column, and one new name, the call succeeds; the first name is
    renamed and the second is never looked at. *)
Lemma rename_columns_length_mismatch_ok :
  length ["id"; "zz"] <> length ["x"]
  /\ ("zz" ∉ pl.columns (table_of (store_of sample) 0))
  /\ exists σ',
       GDGJson.rename_columns 0 ["id"; "zz"] ["x"] (store_of sample) = (Ok 0, σ')
       /\ pl.columns (table_of σ' 0) = ["x"; "c"; "k"].
Proof.
  split; [discriminate|]. split; [apply has_name_false; reflexivity|].
  eexists. split; reflexivity.
Qed.

(** C5, amended: [rename_columns(from_names, to_names)] pairs the names
    positionally up to the length of the shorter sequence and ignores the
    rest, so a difference in length alone raises nothing.  It fails with
    [ColumnNotFoundError], leaving the adapter as it was, whenever one of the
    paired [from_names], nowhere paired with itself, is absent from the
    table and the renaming leaves no two columns of one name (two columns of
    one name are reported first, as another error). *)
Theorem rename_columns_errors σ self from_names to_names :
  let n := length from_names `min` length to_names in
  GDGJson.rename_columns self from_names to_names σ
  = GDGJson.rename_columns self (take n from_names) (take n to_names) σ
  /\ forall a,
       a ∈ take n from_names ->
       (a, a) ∉ zip from_names to_names ->
       a ∉ pl.columns (table_of σ self) ->
       NoDup (pl.columns (renamed (dict_zip from_names to_names)
                            (table_of σ self))) ->
       GDGJson.rename_columns self from_names to_names σ
       = (Raise ColumnNotFoundError, σ).
Proof.
  intros n. split.
  - rewrite !rename_columns_run. subst n. now rewrite dict_zip_take_min.
  - intros a Ha Hself Hcol Hnd. rewrite rename_columns_run.
    destruct (dict_zip_paired from_names to_names a Ha) as (b & Hb & Hpair).
    rewrite (rename_missing_key _ _ a b Hnd Hb); [reflexivity| |assumption].
    intros ->. contradiction.
Qed.

Lemma rename_columns_errors_witness :
  GDGJson.rename_columns 0 ["id"; "zz"; "k"] ["x"; "y"] (store_of sample)
  = (Raise ColumnNotFoundError, store_of sample).
Proof.
  apply (proj2 (rename_columns_errors (store_of sample) 0
                  ["id"; "zz"; "k"] ["x"; "y"]) "zz").
  - apply has_name_spec. reflexivity.
  - intros H. apply list_elem_of_In in H. simpl in H.
    destruct H as [H|[H|H]]; [discriminate H | discriminate H | exact H].
  - apply has_name_false. reflexivity.
  - apply distinct_spec. reflexivity.
Defined.

(** ** Exploding a list column into rows *)

Lemma exploded_name s inner s' : pl.name (exploded s inner s') = pl.name s'.
Proof. unfold exploded. now destruct (String.eqb _ _). Qed.

Lemma explode_ok d c s inner :
  pl.get_column d c = Some s ->
  pl.dtype_of s = TList inner ->
  pl.explode d c = Ok (map (exploded s inner) d).
Proof.
  intros Hc Ht. unfold pl.explode. rewrite Hc, Ht.
  destruct (get_column_Some _ _ _ Hc) as [_ <-]. reflexivity.
Qed.

Section NamePreserving.
Variable g : pl.Series -> pl.Series.
Hypothesis g_name : forall s, pl.name (g s) = pl.name s.

Lemma columns_map d : pl.columns (map g d) = pl.columns d.
Proof.
  unfold pl.columns. rewrite map_map. apply map_ext. exact g_name.
Qed.

Lemma get_column_map d c :
  pl.get_column (map g d) c = option_map g (pl.get_column d c).
Proof.
  unfold pl.get_column. induction d as [|s d IH]; simpl; [reflexivity|].
  rewrite g_name. now destruct (String.eqb (pl.name s) c).
Qed.

Lemma siblings_map d c : siblings (map g d) c = map g (siblings d c).
Proof.
  unfold siblings. induction d as [|s d IH]; simpl; [reflexivity|].
  rewrite g_name. destruct (String.eqb (pl.name s) c); simpl; now rewrite IH.
Qed.
End NamePreserving.

(** Three rows whose list cells have 2, 0 and 1 elements. *)
Lemma repeat_cells_2_0_1 x1 x2 x3 (vs : list value) :
  length vs = 3 ->
  pl.repeat_cells [VList [x1; x2]; VList []; VList [x3]] vs
  = map (fun i => vs !!! i) [0; 0; 2].
Proof.
  destruct vs as [|v0 [|v1 [|v2 [|v3 vs]]]]; try discriminate. reflexivity.
Qed.

(** C6, as stated, fails: on three rows whose arrays have 2, 0 and 1
    elements, beside a column that already has the name the prefixing rule
    gives to a field, the call produces no table: it raises after the explode
    was assigned. *)
Lemma unnest_column_as_rows_collision :
  map (fun v => match v with VList items => length items | _ => 0 end)
      (default [] (pl.values <$> pl.get_column orders_clash "items"))
  = [2; 0; 1]
  /\ exists σ',
       GDGJson.unnest_column_as_rows 0 "items" None (store_of orders_clash)
       = (Raise DuplicateError, σ').
Proof.
  split; [reflexivity|]. eexists. reflexivity.
Qed.

(** C6, amended: for every 3-row table with an array-of-structs column whose
    arrays have 2, 0 and 1 elements, with plain names and with output names
    that differ from each other, [unnest_column_as_rows] succeeds and every
    column of the result has exactly 3 cells, one per array element.  The
    field columns, named by the prefixing rule, hold the fields of the
    elements; every other column comes after them and carries, in rows 0 to
    2, its cells of the source rows 0, 0 and 2. *)
Theorem unnest_column_as_rows_2_0_1 σ self c prefix s fields x1 x2 x3 :
  valid σ self ->
  NoDup (pl.columns (table_of σ self)) ->
  pl.all_plain (pl.columns (table_of σ self)) ->
  pl.all_plain (map fst fields) ->
  Forall (fun s' => length (pl.values s') = 3) (table_of σ self) ->
  pl.get_column (table_of σ self) c = Some s ->
  pl.dtype_of s = TList (TStruct fields) ->
  pl.values s = [VList [x1; x2]; VList []; VList [x3]] ->
  NoDup (map fst fields) ->
  NoDup (map (fun f => field_column_name c prefix f.1) fields
         ++ List.filter (fun c' => negb (String.eqb c' c))
              (pl.columns (table_of σ self))) ->
  exists σ',
    GDGJson.unnest_column_as_rows self c prefix σ = (Ok self, σ')
    /\ table_of σ' self
       = map (fun f => pl.mkSeries (field_column_name c prefix f.1) f.2
                         (map (pl.field_value f.1) [x1; x2; x3])) fields
         ++ map (fun s' => pl.mkSeries (pl.name s') (pl.dtype_of s')
                             (map (fun i => pl.values s' !!! i) [0; 0; 2]))
              (List.filter (fun s' => negb (String.eqb (pl.name s') c))
                 (table_of σ self))
    /\ Forall (fun s' => length (pl.values s') = 3) (table_of σ' self).
Proof.
  intros [Hself _] Hnd _ _ Hrows Hc Ht Hv Hf Hout.
  destruct (get_column_Some _ _ _ Hc) as [Hin Hname].
  set (d := table_of σ self) in *.
  set (s1 := pl.mkSeries c (TStruct fields) [x1; x2; x3]).
  rewrite unnest_column_as_rows_run. fold d.
  rewrite (explode_ok d c s (TStruct fields) Hc Ht).
  rewrite table_of_rebind by assumption.
  pose proof (exploded_name s (TStruct fields)) as Hg.
  assert (Hc1 : pl.get_column (map (exploded s (TStruct fields)) d) c = Some s1).
  { rewrite (get_column_map _ Hg), Hc. simpl. f_equal. unfold exploded, s1.
    now rewrite String.eqb_refl, Hname, Hv. }
  rewrite <- field_names_rule, <- columns_siblings in Hout.
  rewrite (unnest_result_ok _ c prefix s1 fields).
  - simpl. eexists. split; [reflexivity|].
    rewrite table_of_rebind by (simpl; now rewrite length_insert).
    assert (Hsib : siblings (map (exploded s (TStruct fields)) d) c
              = map (fun s' => pl.mkSeries (pl.name s') (pl.dtype_of s')
                                 (map (fun i => pl.values s' !!! i) [0; 0; 2]))
                    (siblings d c)).
    { rewrite (siblings_map _ Hg). apply map_ext_in. intros s' Hs'.
      unfold siblings in Hs'. apply filter_In in Hs' as [Hs' Hne].
      unfold exploded. rewrite Hname.
      apply negb_true_iff in Hne. rewrite Hne, Hv. f_equal.
      apply repeat_cells_2_0_1.
      rewrite Forall_forall in Hrows. apply Hrows. now apply list_elem_of_In. }
    rewrite Hsib. split.
    + unfold field_columns, siblings. f_equal.
      apply map_ext. intros f. now rewrite alias_of_field.
    + apply Forall_app. split.
      * unfold field_columns. apply Forall_forall. intros s' Hs'.
        apply elem_of_map in Hs' as (f & -> & _). reflexivity.
      * apply Forall_forall. intros s' Hs'.
        apply elem_of_map in Hs' as (f & -> & _). reflexivity.
  - now rewrite (columns_map _ Hg).
  - exact Hc1.
  - reflexivity.
  - exact Hf.
  - rewrite (siblings_map _ Hg), (columns_map _ Hg). exact Hout.
Qed.

Lemma unnest_column_as_rows_2_0_1_witness :
  exists σ',
    GDGJson.unnest_column_as_rows 0 "items" (Some "") (store_of orders) = (Ok 0, σ')
    /\ table_of σ' 0
       = [ pl.mkSeries "sku" TString [VStr "a"; VStr "b"; VStr "c"];
           pl.mkSeries "qty" TInt64 [VInt 1; VInt 2; VInt 3];
           pl.mkSeries "order" TInt64 [VInt 1; VInt 1; VInt 3] ]
    /\ Forall (fun s' => length (pl.values s') = 3) (table_of σ' 0).
Proof.
  apply (unnest_column_as_rows_2_0_1 (store_of orders) 0 "items" (Some "")
           (pl.mkSeries "items"
              (TList (TStruct [("sku", TString); ("qty", TInt64)]))
              [ VList [item "a" 1; item "b" 2]; VList []; VList [item "c" 3] ])
           [("sku", TString); ("qty", TInt64)]
           (item "a" 1) (item "b" 2) (item "c" 3)).
  - split; simpl; lia.
  - apply distinct_spec. reflexivity.
  - reflexivity.
  - reflexivity.
  - repeat constructor.
  - reflexivity.
  - reflexivity.
  - reflexivity.
  - apply distinct_spec. reflexivity.
  - apply distinct_spec. reflexivity.
Defined.

(** ** From JSON and back *)

Lemma add_keys_fresh ks acc :
  NoDup (acc ++ ks) -> pl.add_keys ks acc = acc ++ ks.
Proof.
  revert acc. induction ks as [|k ks IH]; intros acc Hnd; simpl.
  - now rewrite app_nil_r.
  - assert (Hk : pl.has_name k acc = false).
    { apply has_name_false. apply NoDup_app in Hnd as (_ & Hd & _).
      intros Hin. apply (Hd k Hin). left. }
    rewrite Hk. rewrite IH; rewrite <- app_assoc; [reflexivity | exact Hnd].
Qed.

Lemma add_keys_known ks acc :
  (forall k, k ∈ ks -> k ∈ acc) -> pl.add_keys ks acc = acc.
Proof.
  revert acc. induction ks as [|k ks IH]; intros acc H; simpl; [reflexivity|].
  assert (Hk : pl.has_name k acc = true) by (apply has_name_spec, H; left).
  rewrite Hk. apply IH. intros k' Hk'. apply H. now right.
Qed.

Lemma record_keys_uniform r0 rows :
  NoDup (map fst r0) ->
  Forall (fun r => map fst r ≡ₚ map fst r0) rows ->
  pl.record_keys (r0 :: rows) = map fst r0.
Proof.
  intros Hnd Hall. unfold pl.record_keys. simpl.
  rewrite (add_keys_fresh (map fst r0) []) by exact Hnd. simpl.
  induction Hall as [|r rows Hr _ IH]; simpl; [reflexivity|].
  rewrite add_keys_known; [exact IH|].
  intros k Hk. now rewrite <- Hr.
Qed.

Lemma assoc_keys {A} (f : string -> A) (ks : list string) (k : string) :
  assoc k (map (fun k' => (k', f k')) ks)
  = if pl.has_name k ks then Some (f k) else None.
Proof.
  unfold pl.has_name. induction ks as [|k' ks IH]; simpl; [reflexivity|].
  destruct (String.eqb_spec k k') as [->|Hne]; [reflexivity | exact IH].
Qed.

Lemma map_lookup_seq {A B} (h : option A -> B) (l : list A) :
  map (fun i => h (l !! i)) (seq 0 (length l)) = map (fun a => h (Some a)) l.
Proof.
  induction l as [|a l IH]; simpl; [reflexivity|].
  f_equal. rewrite <- seq_shift, map_map. exact IH.
Qed.

Lemma to_dicts_frame_of ks rows :
  (rows <> [] -> ks <> []) ->
  pl.to_dicts (frame_of ks rows)
  = map (fun r => map (fun k => (k, default VNull (assoc k r))) ks) rows.
Proof.
  intros Hks. unfold pl.to_dicts.
  assert (Hh : pl.height (frame_of ks rows) = length rows).
  { destruct ks as [|k ks]; simpl.
    - destruct rows; [reflexivity|]. now destruct Hks.
    - unfold pl.cells. now rewrite length_map. }
  rewrite Hh.
  etransitivity;
    [|exact (map_lookup_seq
               (fun o : option pl.row =>
                  map (fun k => (k, from_option
                         (fun r => default VNull (assoc k r)) VNull o)) ks)
               rows)].
  apply map_ext. intros i. unfold pl.row_at, frame_of. rewrite map_map. simpl.
  apply map_ext. intros k. f_equal. unfold pl.cells.
  change (map (fun r => default VNull (assoc k r)) rows)
    with ((fun r => default VNull (assoc k r)) <$> rows).
  rewrite list_lookup_fmap. now destruct (rows !! i).
Qed.

Lemma make_json_series_typed k vs :
  typed_column vs ->
  pl.make_json_series k vs
  = Ok (pl.mkSeries k
          (default TNull (infer_dtype (take pl.infer_schema_length vs) TNull)) vs).
Proof.
  intros (t & Ht & Hfit). unfold pl.make_json_series. rewrite Ht. simpl.
  assert (Hall : forallb (fits t) (List.skipn pl.infer_schema_length vs) = true).
  { apply forallb_forall. intros v Hv. rewrite Forall_forall in Hfit.
    apply Hfit. now apply list_elem_of_In. }
  now rewrite Hall.
Qed.

Lemma cells_take k n rows :
  pl.cells k (take n rows) = take n (pl.cells k rows).
Proof. unfold pl.cells. symmetry. apply firstn_map. Qed.

Lemma init_str_raises doc e σ :
  pl.read_json doc = Raise e ->
  GDGJson.__init__ (PyStr doc) σ = (Raise e, σ).
Proof.
  intros H. unfold GDGJson.__init__. run_method. now rewrite H.
Qed.

(** C1, as stated, fails: one hundred records with a null under the key,
    then one with an integer, are uniform records, and the constructor
    raises on their text; there is no adapter to read back from. *)
Lemma init_late_integer_raises :
  exists rows,
    pl.records late_integer = Ok rows
    /\ length rows = 101
    /\ uniform_records rows
    /\ forall σ,
         GDGJson.__init__ (PyStr late_integer) σ = (Raise ComputeError, σ).
Proof.
  eexists. split; [vm_compute; reflexivity|]. split; [reflexivity|]. split.
  - exists ["a"]. split; [discriminate|].
    split; [apply distinct_spec; reflexivity|].
    repeat (constructor; [reflexivity|]). constructor.
  - intros σ. apply init_str_raises. vm_compute. reflexivity.
Qed.

(** C1, amended: for every JSON-record document whose records all have the
    same keys (at least one, in any order) and whose values under each key
    have one type, which the first 100 records show and every later value
    fits (integers being of 64 bits), the adapter constructed from its text
    exists, and [to_json()] returns as many rows as the document has records,
    the i-th row mapping the same keys to the same values as the i-th record,
    whatever the number of records. *)
Theorem to_json_roundtrip σ doc rows :
  pl.records doc = Ok rows ->
  well_formed rows ->
  exists self σ' out,
    GDGJson.__init__ (PyStr doc) σ = (Ok self, σ')
    /\ GDGJson.to_json self σ' = (Ok out, σ')
    /\ length out = length rows
    /\ Forall2 (fun o r => forall k, assoc k o = assoc k r) out rows.
Proof.
  intros Hdoc (keys & Hne & Hnd & Hkeys & Htyp).
  set (ks := pl.record_keys (take pl.infer_schema_length rows)).
  assert (Hks : ks ≡ₚ keys \/ (rows = [] /\ ks = [])).
  { destruct rows as [|r0 rows']; [now right|]. left.
    apply Forall_cons in Hkeys as [H0 Hrest]. subst ks.
    unfold pl.infer_schema_length. cbn [take firstn].
    rewrite record_keys_uniform.
    - exact H0.
    - now rewrite H0.
    - apply Forall_take. eapply Forall_impl; [exact Hrest|].
      intros r Hr. simpl in Hr. now rewrite Hr, H0. }
  assert (Hnonempty : rows <> [] -> ks <> []).
  { intros Hr. destruct Hks as [Hp|[? _]]; [|contradiction].
    intros Hnil. rewrite Hnil in Hp. apply Permutation_nil_l in Hp.
    now apply Hne. }
  assert (Hread : pl.read_json doc = Ok (frame_of ks rows)).
  { unfold pl.read_json. rewrite Hdoc. apply mapR_map.
    intros k Hk. apply make_json_series_typed.
    destruct Hks as [Hp|[_ Hnil]].
    - rewrite Forall_forall in Htyp. apply Htyp. now rewrite <- Hp.
    - rewrite Hnil in Hk. inversion Hk. }
  exists (length (adapters σ)).
  exists (mkStore (tables σ ++ [frame_of ks rows])
                  (adapters σ ++ [length (tables σ)])).
  exists (pl.to_dicts (frame_of ks rows)).
  split; [|split; [|split]].
  - unfold GDGJson.__init__. run_method. now rewrite Hread.
  - unfold GDGJson.to_json. run_method.
    now rewrite !lookup_total_snoc.
  - rewrite to_dicts_frame_of by assumption. now rewrite length_map.
  - rewrite to_dicts_frame_of by assumption.
    apply Forall2_fmap_l, Forall_Forall2_diag.
    rewrite Forall_forall in Hkeys. apply Forall_forall.
    intros r Hr k. rewrite assoc_keys.
    assert (Hp : ks ≡ₚ map fst r).
    { destruct Hks as [Hp|[Hnil _]].
      - now rewrite Hp, (Hkeys r Hr).
      - rewrite Hnil in Hr. inversion Hr. }
    destruct (pl.has_name k ks) eqn:Hk.
    + apply has_name_spec in Hk. rewrite Hp in Hk.
      destruct (assoc k r) as [v|] eqn:Hv; [reflexivity|].
      apply assoc_None in Hv. contradiction.
    + apply has_name_false in Hk. rewrite Hp in Hk.
      symmetry. now apply assoc_None.
Qed.

Lemma to_json_roundtrip_witness :
  exists self σ' out,
    GDGJson.__init__ (PyStr people) (mkStore [] []) = (Ok self, σ')
    /\ GDGJson.to_json self σ' = (Ok out, σ')
    /\ length out = 2
    /\ Forall2 (fun o r => forall k, assoc k o = assoc k r) out
         [ [("name", VStr "ada"); ("tags", VList [VStr "x"; VStr "y"])];
           [("tags", VList []); ("name", VNull)] ].
Proof.
  apply (to_json_roundtrip (mkStore [] []) people
           [ [("name", VStr "ada"); ("tags", VList [VStr "x"; VStr "y"])];
             [("tags", VList []); ("name", VNull)] ]).
  - reflexivity.
  - exists ["name"; "tags"]. split; [discriminate|].
    split; [apply distinct_spec; reflexivity|]. split.
    + constructor; [reflexivity|]. constructor; [apply perm_swap | constructor].
    + constructor; [eexists; split; [reflexivity | constructor]|].
      constructor; [eexists; split; [reflexivity | constructor] | constructor].
Defined.

(** * Further properties of the class *)

(** ** Renaming one column *)

Lemma series_eta (s : pl.Series) :
  pl.mkSeries (pl.name s) (pl.dtype_of s) (pl.values s) = s.
Proof. now destruct s. Qed.

Lemma rename_ok d (m : gmap string string) :
  (forall k v, m !! k = Some v -> k ∈ pl.columns d) ->
  NoDup (pl.columns (renamed m d)) ->
  pl.rename d m = Ok (renamed m d).
Proof.
  intros Hkeys Hnd. unfold pl.rename. fold (renamed m d).
  apply distinct_spec in Hnd. rewrite Hnd.
  assert (Hall : forallb (fun kv : string * string =>
                            String.eqb kv.1 kv.2
                            || pl.has_name kv.1 (pl.columns d))
                   (map_to_list m) = true).
  { apply forallb_forall. intros [k v] Hk. apply orb_true_iff. right.
    apply has_name_spec. apply list_elem_of_In, elem_of_map_to_list in Hk.
    exact (Hkeys _ _ Hk). }
  now rewrite Hall.
Qed.

Lemma rename_duplicate d (m : gmap string string) :
  (forall k v, m !! k = Some v -> k ∈ pl.columns d) ->
  ~ NoDup (pl.columns (renamed m d)) ->
  pl.rename d m = Raise DuplicateError.
Proof.
  intros _ Hnd. unfold pl.rename. fold (renamed m d).
  apply distinct_false in Hnd. now rewrite Hnd.
Qed.

Lemma renamed_singleton a b d : renamed {[ a := b ]} d = renamed_one a b d.
Proof.
  unfold renamed, renamed_one. apply map_ext. intros s.
  destruct (String.eqb_spec (pl.name s) a) as [->|Hne].
  - now rewrite lookup_singleton_eq.
  - rewrite lookup_singleton_ne by congruence. apply series_eta.
Qed.

Lemma columns_renamed_one a b d :
  pl.columns (renamed_one a b d)
  = map (fun n => if String.eqb n a then b else n) (pl.columns d).
Proof.
  unfold pl.columns, renamed_one. rewrite !map_map. apply map_ext. intros s.
  now destruct (String.eqb (pl.name s) a).
Qed.

Lemma NoDup_rename_one (a b : string) (l : list string) :
  NoDup l -> (b = a \/ b ∉ l) ->
  NoDup (map (fun n => if String.eqb n a then b else n) l).
Proof.
  intros Hnd [->|Hb].
  - rewrite (map_ext _ (fun n => n)); [now rewrite map_id|].
    intros n. now destruct (String.eqb_spec n a).
  - induction Hnd as [|x l Hx Hnd IH]; simpl; [constructor|].
    apply not_elem_of_cons in Hb as [Hbx Hbl]. apply NoDup_cons. split; [|auto].
    intros Hin. apply elem_of_map in Hin as (y & Heq & Hy).
    destruct (String.eqb_spec x a) as [Hxa|Hxa];
      destruct (String.eqb_spec y a) as [Hya|Hya].
    + apply Hx. congruence.
    + apply Hbl. congruence.
    + apply Hbx. congruence.
    + apply Hx. congruence.
Qed.

(** [rename_column(a, b)] on a table that has the column [a] and no other
    column named [b]: the call succeeds, the column [a] is now named [b] with
    its type and cells, and every other column is as it was, in the same
    position. *)
Theorem rename_column_renames σ self a b :
  valid σ self ->
  NoDup (pl.columns (table_of σ self)) ->
  a ∈ pl.columns (table_of σ self) ->
  b = a \/ b ∉ pl.columns (table_of σ self) ->
  exists σ',
    GDGJson.rename_column self a b σ = (Ok self, σ')
    /\ table_of σ' self
       = map (fun s => if String.eqb (pl.name s) a
                       then pl.mkSeries b (pl.dtype_of s) (pl.values s) else s)
             (table_of σ self)
    /\ pl.columns (table_of σ' self)
       = map (fun n => if String.eqb n a then b else n)
             (pl.columns (table_of σ self)).
Proof.
  intros [Hself _] Hnd Ha Hb. rewrite rename_column_run.
  rewrite rename_ok.
  - simpl. eexists. split; [reflexivity|]. rewrite table_of_rebind by assumption.
    rewrite renamed_singleton. split; [reflexivity | apply columns_renamed_one].
  - intros k v Hkv. apply lookup_singleton_Some in Hkv as [<- _]. exact Ha.
  - rewrite renamed_singleton, columns_renamed_one.
    now apply NoDup_rename_one.
Qed.

Lemma rename_column_renames_witness :
  exists σ',
    GDGJson.rename_column 0 "k" "key" (store_of sample) = (Ok 0, σ')
    /\ table_of σ' 0
       = [ pl.mkSeries "id" TInt64 [VInt 1; VInt 2];
           pl.mkSeries "c" T_ab [struct_ab 10 11; struct_ab 20 21];
           pl.mkSeries "key" TString [VStr "x"; VStr "y"] ]
    /\ pl.columns (table_of σ' 0) = ["id"; "c"; "key"].
Proof.
  apply (rename_column_renames (store_of sample) 0 "k" "key").
  - split; simpl; lia.
  - apply distinct_spec. reflexivity.
  - apply has_name_spec. reflexivity.
  - right. apply has_name_false. reflexivity.
Defined.

Lemma rename_one_absent (a b : string) (l : list string) :
  a ∉ l -> map (fun n => if String.eqb n a then b else n) l = l.
Proof.
  intros Ha. rewrite <- (map_id l) at 2. apply map_ext_in. intros n Hn.
  destruct (String.eqb_spec n a) as [->|_]; [|reflexivity].
  exfalso. apply Ha. now apply list_elem_of_In.
Qed.

(** [rename_column(a, b)] with [b] another name than [a], when the table
    has no column [a]: the engine's [ColumnNotFoundError], and the store is
    as before the call. *)
Theorem rename_column_missing σ self a b :
  NoDup (pl.columns (table_of σ self)) ->
  a <> b ->
  a ∉ pl.columns (table_of σ self) ->
  GDGJson.rename_column self a b σ = (Raise ColumnNotFoundError, σ).
Proof.
  intros Hnd Hne Ha. rewrite rename_column_run.
  rewrite (rename_missing_key _ _ a b); [reflexivity| | | assumption | assumption].
  - rewrite renamed_singleton, columns_renamed_one.
    now rewrite rename_one_absent.
  - apply lookup_singleton_eq.
Qed.

Lemma rename_column_missing_witness :
  GDGJson.rename_column 0 "zz" "key" (store_of sample)
  = (Raise ColumnNotFoundError, store_of sample).
Proof.
  apply (rename_column_missing (store_of sample) 0 "zz" "key").
  - apply distinct_spec. reflexivity.
  - discriminate.
  - apply has_name_false. reflexivity.
Defined.

(** [rename_column(a, b)] when [b] is already the name of another column:
    the engine's [DuplicateError]; no column is overwritten and the store is
    as before the call. *)
Theorem rename_column_onto_existing σ self a b :
  a ∈ pl.columns (table_of σ self) ->
  b ∈ pl.columns (table_of σ self) ->
  b <> a ->
  GDGJson.rename_column self a b σ = (Raise DuplicateError, σ).
Proof.
  intros Ha Hb Hne. rewrite rename_column_run.
  rewrite rename_duplicate; [reflexivity| |].
  - intros k v Hkv. apply lookup_singleton_Some in Hkv as [<- _]. exact Ha.
  - rewrite renamed_singleton, columns_renamed_one.
    set (l := pl.columns (table_of σ self)) in *. clearbody l.
    induction l as [|x l IH]; [inversion Ha|]. simpl.
    rewrite NoDup_cons. intros [Hx Hnd].
    apply elem_of_cons in Ha as [<-|Ha]; apply elem_of_cons in Hb as [<-|Hb].
    + congruence.
    + rewrite String.eqb_refl in Hx. apply Hx, elem_of_map. exists b.
      split; [|assumption]. now destruct (String.eqb_spec b a).
    + destruct (String.eqb_spec b a); [congruence|].
      apply Hx, elem_of_map. exists a. split; [|assumption].
      now rewrite String.eqb_refl.
    + now apply IH.
Qed.

Lemma rename_column_onto_existing_witness :
  GDGJson.rename_column 0 "k" "id" (store_of sample)
  = (Raise DuplicateError, store_of sample).
Proof.
  apply (rename_column_onto_existing (store_of sample) 0 "k" "id").
  - apply has_name_spec. reflexivity.
  - apply has_name_spec. reflexivity.
  - discriminate.
Defined.

(** ** Dropping columns *)

Lemma drop_ok d names :
  (forall c, c ∈ names -> c ∈ pl.columns d) ->
  pl.drop d names
  = Ok (List.filter (fun s => negb (pl.has_name (pl.name s) names)) d).
Proof.
  intros H. unfold pl.drop.
  assert (Hall : forallb (fun k => pl.has_name k (pl.columns d)) names = true).
  { apply forallb_forall. intros k Hk. apply has_name_spec, H.
    now apply list_elem_of_In. }
  now rewrite Hall.
Qed.

Lemma drop_missing_name d names c :
  c ∈ names -> c ∉ pl.columns d -> pl.drop d names = Raise ColumnNotFoundError.
Proof.
  intros Hc Hcol. unfold pl.drop.
  destruct (forallb _ names) eqn:Hall; [|reflexivity].
  exfalso. apply Hcol, has_name_spec.
  rewrite forallb_forall in Hall. apply Hall. now apply list_elem_of_In.
Qed.

Lemma columns_filter_names d names c :
  c ∈ pl.columns (List.filter (fun s => negb (pl.has_name (pl.name s) names)) d)
  <-> c ∈ pl.columns d /\ c ∉ names.
Proof.
  unfold pl.columns. rewrite !elem_of_map. split.
  - intros (s & -> & Hs). apply list_elem_of_In, filter_In in Hs as [Hs Hn].
    apply negb_true_iff, has_name_false in Hn. split; [|assumption].
    exists s. split; [reflexivity | now apply list_elem_of_In].
  - intros [(s & -> & Hs) Hn]. exists s. split; [reflexivity|].
    apply list_elem_of_In, filter_In. split; [now apply list_elem_of_In|].
    now apply negb_true_iff, has_name_false.
Qed.

(** [drop(column_names)], for one plain name or a list of plain names that
    are all columns: the call succeeds, the table keeps exactly the columns
    whose name is not among them, unchanged and in their original order. *)
Theorem drop_removes σ self cs :
  valid σ self ->
  pl.all_plain (names_of cs) ->
  (forall c, c ∈ names_of cs -> c ∈ pl.columns (table_of σ self)) ->
  exists σ',
    GDGJson.drop self cs σ = (Ok self, σ')
    /\ table_of σ' self
       = List.filter (fun s => negb (pl.has_name (pl.name s) (names_of cs)))
           (table_of σ self)
    /\ forall c, c ∈ pl.columns (table_of σ' self)
                 <-> c ∈ pl.columns (table_of σ self) /\ c ∉ names_of cs.
Proof.
  intros [Hself _] _ Hall. rewrite drop_run, (drop_ok _ _ Hall). simpl.
  eexists. split; [reflexivity|]. rewrite table_of_rebind by assumption.
  split; [reflexivity|]. intros c. apply columns_filter_names.
Qed.

Lemma drop_removes_witness :
  exists σ',
    GDGJson.drop 0 (Names ["id"; "k"]) (store_of sample) = (Ok 0, σ')
    /\ table_of σ' 0
       = List.filter (fun s => negb (pl.has_name (pl.name s) ["id"; "k"])) sample
    /\ forall c, c ∈ pl.columns (table_of σ' 0)
                 <-> c ∈ pl.columns sample /\ c ∉ ["id"; "k"].
Proof.
  apply (drop_removes (store_of sample) 0 (Names ["id"; "k"])).
  - split; simpl; lia.
  - reflexivity.
  - intros c Hc. apply has_name_spec. apply has_name_spec in Hc.
    simpl in Hc. apply orb_true_iff in Hc as [Hc|Hc].
    + apply String.eqb_eq in Hc as ->. reflexivity.
    + apply orb_true_iff in Hc as [Hc|Hc]; [|discriminate].
      apply String.eqb_eq in Hc as ->. reflexivity.
Defined.

(** [drop(column_names)] with plain names, one of which is not a column:
    the engine's [ColumnNotFoundError]; none of the other named columns is
    dropped, the store is as before the call. *)
Theorem drop_missing σ self cs c :
  pl.all_plain (names_of cs) ->
  c ∈ names_of cs ->
  c ∉ pl.columns (table_of σ self) ->
  GDGJson.drop self cs σ = (Raise ColumnNotFoundError, σ).
Proof.
  intros _ Hc Hcol. rewrite drop_run.
  now rewrite (drop_missing_name _ _ c Hc Hcol).
Qed.

Lemma drop_missing_witness :
  GDGJson.drop 0 (Names ["id"; "zz"]) (store_of sample)
  = (Raise ColumnNotFoundError, store_of sample).
Proof.
  apply (drop_missing (store_of sample) 0 (Names ["id"; "zz"]) "zz").
  - reflexivity.
  - apply has_name_spec. reflexivity.
  - apply has_name_false. reflexivity.
Defined.

(** A column of plain name can be dropped once: after [drop(c)] has
    succeeded, a second [drop(c)] raises [ColumnNotFoundError] and changes
    nothing. *)
Theorem drop_twice σ self c :
  valid σ self ->
  pl.plain c = true ->
  c ∈ pl.columns (table_of σ self) ->
  exists σ',
    GDGJson.drop self (OneName c) σ = (Ok self, σ')
    /\ GDGJson.drop self (OneName c) σ' = (Raise ColumnNotFoundError, σ').
Proof.
  intros [Hself _] _ Hc. rewrite drop_run. rewrite drop_ok.
  - cbn [step]. eexists. split; [reflexivity|]. rewrite drop_run.
    rewrite table_of_rebind by assumption.
    rewrite (drop_missing_name _ (names_of (OneName c)) c);
      [reflexivity | left |].
    intros Hin. apply columns_filter_names in Hin as [_ Hn]. apply Hn. left.
  - simpl. intros c' Hc'. apply list_elem_of_singleton in Hc' as ->. exact Hc.
Qed.

Lemma drop_twice_witness :
  exists σ',
    GDGJson.drop 0 (OneName "id") (store_of sample) = (Ok 0, σ')
    /\ GDGJson.drop 0 (OneName "id") σ' = (Raise ColumnNotFoundError, σ').
Proof.
  apply (drop_twice (store_of sample) 0 "id").
  - split; simpl; lia.
  - reflexivity.
  - apply has_name_spec. reflexivity.
Defined.

(** ** Duplicating a column *)

Lemma with_columns_alias d c n s :
  pl.get_column d c = Some s ->
  pl.with_columns d (pl.alias (pl.col c) n)
  = Ok (if pl.has_name n (pl.columns d)
        then map (fun s' => if String.eqb (pl.name s') n
                            then pl.mkSeries n (pl.dtype_of s) (pl.values s)
                            else s') d
        else d ++ [pl.mkSeries n (pl.dtype_of s) (pl.values s)]).
Proof.
  intros Hc. unfold pl.with_columns. simpl. rewrite Hc. simpl.
  now destruct (pl.has_name n (pl.columns d)).
Qed.

(** [duplicate_column(c, n)] when [c] is a column of plain name and [n] is
    not a column: the call succeeds and the table is the old one with one
    more column at the end, named [n], with the type and the cells of [c]. *)
Theorem duplicate_column_appends σ self c n s :
  valid σ self ->
  pl.plain c = true ->
  pl.get_column (table_of σ self) c = Some s ->
  n ∉ pl.columns (table_of σ self) ->
  exists σ',
    GDGJson.duplicate_column self c n σ = (Ok self, σ')
    /\ table_of σ' self
       = table_of σ self ++ [pl.mkSeries n (pl.dtype_of s) (pl.values s)].
Proof.
  intros [Hself _] _ Hc Hn. rewrite duplicate_column_run.
  rewrite (with_columns_alias _ c n s Hc).
  apply has_name_false in Hn. rewrite Hn. simpl.
  eexists. split; [reflexivity|]. now rewrite table_of_rebind.
Qed.

Lemma duplicate_column_appends_witness :
  exists σ',
    GDGJson.duplicate_column 0 "k" "k2" (store_of sample) = (Ok 0, σ')
    /\ table_of σ' 0 = sample ++ [pl.mkSeries "k2" TString [VStr "x"; VStr "y"]].
Proof.
  apply (duplicate_column_appends (store_of sample) 0 "k" "k2"
           (pl.mkSeries "k" TString [VStr "x"; VStr "y"])).
  - split; simpl; lia.
  - reflexivity.
  - reflexivity.
  - apply has_name_false. reflexivity.
Defined.

(** [duplicate_column(c, n)] when [c] is a column of plain name and [n] is
    already a column: the call succeeds and overwrites that column where it
    stands with the type and the cells of [c]; the names and the order of the
    columns are unchanged. *)
Theorem duplicate_column_overwrites σ self c n s :
  valid σ self ->
  pl.plain c = true ->
  pl.get_column (table_of σ self) c = Some s ->
  n ∈ pl.columns (table_of σ self) ->
  exists σ',
    GDGJson.duplicate_column self c n σ = (Ok self, σ')
    /\ table_of σ' self
       = map (fun s' => if String.eqb (pl.name s') n
                        then pl.mkSeries n (pl.dtype_of s) (pl.values s)
                        else s') (table_of σ self)
    /\ pl.columns (table_of σ' self) = pl.columns (table_of σ self).
Proof.
  intros [Hself _] _ Hc Hn. rewrite duplicate_column_run.
  rewrite (with_columns_alias _ c n s Hc).
  apply has_name_spec in Hn. rewrite Hn. simpl.
  eexists. split; [reflexivity|]. rewrite table_of_rebind by assumption.
  split; [reflexivity|]. unfold pl.columns. rewrite map_map.
  apply map_ext. intros s'.
  now destruct (String.eqb_spec (pl.name s') n).
Qed.

Lemma duplicate_column_overwrites_witness :
  exists σ',
    GDGJson.duplicate_column 0 "k" "id" (store_of sample) = (Ok 0, σ')
    /\ table_of σ' 0
       = [ pl.mkSeries "id" TString [VStr "x"; VStr "y"];
           pl.mkSeries "c" T_ab [struct_ab 10 11; struct_ab 20 21];
           pl.mkSeries "k" TString [VStr "x"; VStr "y"] ]
    /\ pl.columns (table_of σ' 0) = ["id"; "c"; "k"].
Proof.
  apply (duplicate_column_overwrites (store_of sample) 0 "k" "id"
           (pl.mkSeries "k" TString [VStr "x"; VStr "y"])).
  - split; simpl; lia.
  - reflexivity.
  - reflexivity.
  - apply has_name_spec. reflexivity.
Defined.

(** [duplicate_column(c, n)] when the plain name [c] is not a column:
    [ColumnNotFoundError], and the store is as before the call. *)
Theorem duplicate_column_missing σ self c n :
  pl.plain c = true ->
  c ∉ pl.columns (table_of σ self) ->
  GDGJson.duplicate_column self c n σ = (Raise ColumnNotFoundError, σ).
Proof.
  intros _ Hc. rewrite duplicate_column_run. unfold pl.with_columns. simpl.
  apply get_column_None in Hc. now rewrite Hc.
Qed.

Lemma duplicate_column_missing_witness :
  GDGJson.duplicate_column 0 "zz" "k2" (store_of sample)
  = (Raise ColumnNotFoundError, store_of sample).
Proof.
  apply (duplicate_column_missing (store_of sample) 0 "zz" "k2");
    [reflexivity|].
  apply has_name_false. reflexivity.
Defined.

(** ** Round trips *)

Lemma filter_drop_appended (d : pl.DataFrame) (x : pl.Series) :
  pl.name x ∉ pl.columns d ->
  List.filter (fun s => negb (pl.has_name (pl.name s) [pl.name x])) (d ++ [x]) = d.
Proof.
  intros Hn. rewrite List.filter_app. simpl. rewrite String.eqb_refl. simpl.
  rewrite app_nil_r. apply List.forallb_filter_id, forallb_forall.
  intros s Hs. rewrite orb_false_r. apply negb_true_iff, String.eqb_neq.
  intros Heq. apply Hn. rewrite <- Heq. apply elem_of_map. exists s.
  split; [reflexivity | now apply list_elem_of_In].
Qed.

(** [duplicate_column(c, n)] for a new name [n] followed by [drop(n)], both
    names plain, gives back the table as it was before the two calls. *)
Theorem duplicate_then_drop σ self c n :
  valid σ self ->
  pl.plain c = true ->
  pl.plain n = true ->
  c ∈ pl.columns (table_of σ self) ->
  n ∉ pl.columns (table_of σ self) ->
  exists σ1 σ2,
    GDGJson.duplicate_column self c n σ = (Ok self, σ1)
    /\ GDGJson.drop self (OneName n) σ1 = (Ok self, σ2)
    /\ table_of σ2 self = table_of σ self.
Proof.
  intros [Hself _] _ _ Hc Hn.
  destruct (pl.get_column (table_of σ self) c) as [s|] eqn:Hs;
    [|apply get_column_None in Hs; contradiction].
  rewrite duplicate_column_run, (with_columns_alias _ c n s Hs).
  pose proof Hn as Hn'. apply has_name_false in Hn'. rewrite Hn'. simpl.
  eexists. eexists. split; [reflexivity|].
  rewrite drop_run, table_of_rebind by assumption. simpl.
  rewrite drop_ok.
  - simpl. split; [reflexivity|].
    rewrite table_of_rebind by (simpl; now rewrite length_insert).
    exact (filter_drop_appended (table_of σ self)
             (pl.mkSeries n (pl.dtype_of s) (pl.values s)) Hn).
  - intros c' Hc'. apply list_elem_of_singleton in Hc' as ->.
    unfold pl.columns. rewrite map_app. apply elem_of_app. right. left.
Qed.

Lemma duplicate_then_drop_witness :
  exists σ1 σ2,
    GDGJson.duplicate_column 0 "k" "k2" (store_of sample) = (Ok 0, σ1)
    /\ GDGJson.drop 0 (OneName "k2") σ1 = (Ok 0, σ2)
    /\ table_of σ2 0 = table_of (store_of sample) 0.
Proof.
  apply (duplicate_then_drop (store_of sample) 0 "k" "k2").
  - split; simpl; lia.
  - reflexivity.
  - reflexivity.
  - apply has_name_spec. reflexivity.
  - apply has_name_false. reflexivity.
Defined.

Lemma renamed_one_back a b d :
  b ∉ pl.columns d -> renamed_one b a (renamed_one a b d) = d.
Proof.
  intros Hb. unfold renamed_one. rewrite map_map.
  rewrite <- (map_id d) at 2. apply map_ext_in. intros s Hs.
  destruct (String.eqb_spec (pl.name s) a) as [<-|Hne]; simpl.
  - rewrite String.eqb_refl. apply series_eta.
  - destruct (String.eqb_spec (pl.name s) b) as [<-|_]; [|reflexivity].
    exfalso. apply Hb, elem_of_map. exists s.
    split; [reflexivity | now apply list_elem_of_In].
Qed.

(** [rename_column(a, b)] for a new name [b] followed by [rename_column(b, a)]
    gives back the table as it was before the two calls. *)
Theorem rename_there_and_back σ self a b :
  valid σ self ->
  NoDup (pl.columns (table_of σ self)) ->
  a ∈ pl.columns (table_of σ self) ->
  b ∉ pl.columns (table_of σ self) ->
  exists σ1 σ2,
    GDGJson.rename_column self a b σ = (Ok self, σ1)
    /\ GDGJson.rename_column self b a σ1 = (Ok self, σ2)
    /\ table_of σ2 self = table_of σ self.
Proof.
  intros [Hself _] Hnd Ha Hb.
  set (d := table_of σ self) in *.
  assert (Hnd1 : NoDup (pl.columns (renamed_one a b d))).
  { rewrite columns_renamed_one. apply NoDup_rename_one; auto. }
  assert (Hb1 : b ∈ pl.columns (renamed_one a b d)).
  { rewrite columns_renamed_one. apply elem_of_map. exists a.
    split; [now rewrite String.eqb_refl | assumption]. }
  rewrite rename_column_run. fold d. rewrite rename_ok.
  - simpl. eexists. eexists. split; [reflexivity|].
    rewrite rename_column_run, table_of_rebind by assumption.
    rewrite renamed_singleton. rewrite rename_ok.
    + simpl. split; [reflexivity|].
      rewrite table_of_rebind by (simpl; now rewrite length_insert).
      rewrite renamed_singleton. now apply renamed_one_back.
    + intros k v Hkv. apply lookup_singleton_Some in Hkv as [<- _]. exact Hb1.
    + rewrite renamed_singleton, renamed_one_back by assumption. exact Hnd.
  - intros k v Hkv. apply lookup_singleton_Some in Hkv as [<- _]. exact Ha.
  - now rewrite renamed_singleton.
Qed.

Lemma rename_there_and_back_witness :
  exists σ1 σ2,
    GDGJson.rename_column 0 "k" "key" (store_of sample) = (Ok 0, σ1)
    /\ GDGJson.rename_column 0 "key" "k" σ1 = (Ok 0, σ2)
    /\ table_of σ2 0 = table_of (store_of sample) 0.
Proof.
  apply (rename_there_and_back (store_of sample) 0 "k" "key").
  - split; simpl; lia.
  - apply distinct_spec. reflexivity.
  - apply has_name_spec. reflexivity.
  - apply has_name_false. reflexivity.
Defined.

(** ** Selecting columns *)

Lemma select_columns_eval d names :
  (forall c, c ∈ names -> c ∈ pl.columns d) ->
  exists out,
    mapR (pl.eval d) (map pl.col names) = Ok out
    /\ Forall2 (fun c s => pl.get_column d c = Some s) names out
    /\ pl.columns out = names.
Proof.
  induction names as [|c names IH]; intros H; simpl.
  - exists []. repeat split; constructor.
  - destruct (pl.get_column d c) as [s|] eqn:Hs.
    + destruct IH as (out & -> & Hall & Hcols).
      { intros c' Hc'. apply H. now right. }
      exists (s :: out). split; [reflexivity|]. split; [now constructor|].
      simpl. destruct (get_column_Some _ _ _ Hs) as [_ ->]. now rewrite Hcols.
    + apply get_column_None in Hs. exfalso. apply Hs, H. left.
Qed.

Lemma select_columns_missing d names c :
  c ∈ names -> c ∉ pl.columns d ->
  mapR (pl.eval d) (map pl.col names) = Raise ColumnNotFoundError.
Proof.
  intros Hc Hcol. induction names as [|c' names IH]; [inversion Hc|]. simpl.
  destruct (pl.get_column d c') as [s|] eqn:Hs; [|reflexivity].
  apply elem_of_cons in Hc as [->|Hc].
  - apply get_column_None in Hcol. congruence.
  - now rewrite (IH Hc).
Qed.

Lemma output_names_cols names : map pl.output_name (map pl.col names) = names.
Proof. rewrite map_map. apply map_id. Qed.

(** [select] with plain column names that are all columns, none given twice,
    and without the copy flag: the call succeeds and the table holds exactly
    the requested columns, unchanged, in the requested order. *)
Theorem select_keeps_named σ self names :
  valid σ self ->
  pl.all_plain names ->
  NoDup names ->
  (forall c, c ∈ names -> c ∈ pl.columns (table_of σ self)) ->
  exists σ',
    GDGJson.select self (map pl.col names) false σ = (Ok self, σ')
    /\ pl.columns (table_of σ' self) = names
    /\ Forall2 (fun c s => pl.get_column (table_of σ self) c = Some s)
         names (table_of σ' self).
Proof.
  intros [Hself _] _ Hnd Hall. rewrite select_run. unfold pl.select.
  rewrite output_names_cols. apply distinct_spec in Hnd. rewrite Hnd.
  destruct (select_columns_eval _ names Hall) as (out & -> & Hout & Hcols).
  simpl. eexists. split; [reflexivity|]. rewrite table_of_rebind by assumption.
  now split.
Qed.

Lemma select_keeps_named_witness :
  exists σ',
    GDGJson.select 0 (map pl.col ["k"; "id"]) false (store_of sample) = (Ok 0, σ')
    /\ pl.columns (table_of σ' 0) = ["k"; "id"]
    /\ Forall2 (fun c s => pl.get_column (table_of (store_of sample) 0) c = Some s)
         ["k"; "id"] (table_of σ' 0).
Proof.
  apply (select_keeps_named (store_of sample) 0 ["k"; "id"]).
  - split; simpl; lia.
  - reflexivity.
  - apply distinct_spec. reflexivity.
  - intros c Hc. apply has_name_spec. apply has_name_spec in Hc.
    simpl in Hc. apply orb_true_iff in Hc as [Hc|Hc].
    + apply String.eqb_eq in Hc as ->. reflexivity.
    + apply orb_true_iff in Hc as [Hc|Hc]; [|discriminate].
      apply String.eqb_eq in Hc as ->. reflexivity.
Defined.

(** [select] with plain names, none given twice, one of which is not a
    column, without the copy flag: [ColumnNotFoundError], and the store is as
    before the call. *)
Theorem select_missing σ self names c :
  pl.all_plain names ->
  NoDup names ->
  c ∈ names ->
  c ∉ pl.columns (table_of σ self) ->
  GDGJson.select self (map pl.col names) false σ
  = (Raise ColumnNotFoundError, σ).
Proof.
  intros _ Hnd Hc Hcol. rewrite select_run. unfold pl.select.
  rewrite output_names_cols. apply distinct_spec in Hnd. rewrite Hnd.
  now rewrite (select_columns_missing _ names c Hc Hcol).
Qed.

Lemma select_missing_witness :
  GDGJson.select 0 (map pl.col ["id"; "zz"]) false (store_of sample)
  = (Raise ColumnNotFoundError, store_of sample).
Proof.
  apply (select_missing (store_of sample) 0 ["id"; "zz"] "zz").
  - reflexivity.
  - apply distinct_spec. reflexivity.
  - apply has_name_spec. reflexivity.
  - apply has_name_false. reflexivity.
Defined.

(** [select] with plain names of columns, one of them given twice, without
    the copy flag: the engine's [DuplicateError], and the store is as before
    the call. *)
Theorem select_same_twice σ self names :
  pl.all_plain names ->
  (forall c, c ∈ names -> c ∈ pl.columns (table_of σ self)) ->
  ~ NoDup names ->
  GDGJson.select self (map pl.col names) false σ = (Raise DuplicateError, σ).
Proof.
  intros _ _ Hdup. rewrite select_run. unfold pl.select.
  rewrite output_names_cols. apply distinct_false in Hdup. now rewrite Hdup.
Qed.

Lemma select_same_twice_witness :
  GDGJson.select 0 (map pl.col ["id"; "id"]) false (store_of sample)
  = (Raise DuplicateError, store_of sample).
Proof.
  apply (select_same_twice (store_of sample) 0 ["id"; "id"]).
  - reflexivity.
  - intros c Hc. apply has_name_spec. apply has_name_spec in Hc.
    simpl in Hc. apply orb_true_iff in Hc as [Hc|Hc].
    + apply String.eqb_eq in Hc as ->. reflexivity.
    + apply orb_true_iff in Hc as [Hc|Hc]; [|discriminate].
      apply String.eqb_eq in Hc as ->. reflexivity.
  - apply distinct_false. reflexivity.
Defined.

(** [select] with the copy flag set goes through [copy()], which raises for
    every adapter: whatever the arguments, the call raises [ValueError],
    returns no adapter and selects nothing, on the original or elsewhere. *)
Theorem select_copy_raises σ self args :
  GDGJson.select self args true σ = (Raise ValueError, σ).
Proof. reflexivity. Qed.

(** ** Errors of the expansion methods *)

Lemma struct_fields_missing d c :
  c ∉ pl.columns d -> GDGJson.struct_fields d c = Raise KeyError.
Proof.
  intros Hc. unfold GDGJson.struct_fields.
  assert (H : assoc c (pl.schema d) = None).
  { apply assoc_None. unfold pl.schema. rewrite map_map. exact Hc. }
  now rewrite H.
Qed.

Lemma assoc_schema d c : assoc c (pl.schema d) = option_map pl.dtype_of (pl.get_column d c).
Proof.
  unfold pl.schema, pl.get_column. induction d as [|s d IH]; simpl; [reflexivity|].
  rewrite (String.eqb_sym c). now destruct (String.eqb (pl.name s) c).
Qed.

(** [expand_column(c)] when the table has no column [c]: the lookup of [c]
    in the schema raises [KeyError] (not the engine's column error), and the
    store is as before the call. *)
Theorem expand_column_missing σ self c prefix :
  c ∉ pl.columns (table_of σ self) ->
  GDGJson.expand_column self c prefix σ = (Raise KeyError, σ).
Proof.
  intros Hc. rewrite expand_column_run. unfold unnest_result.
  now rewrite (struct_fields_missing _ c Hc).
Qed.

Lemma expand_column_missing_witness :
  GDGJson.expand_column 0 "zz" None (store_of sample)
  = (Raise KeyError, store_of sample).
Proof.
  apply (expand_column_missing (store_of sample) 0 "zz" None).
  apply has_name_false. reflexivity.
Defined.

(** [expand_column(c)] when the column [c] is not a struct: its type has no
    [fields], the call raises [AttributeError], and the store is as before
    the call. *)
Theorem expand_column_not_struct σ self c prefix s :
  pl.get_column (table_of σ self) c = Some s ->
  (forall fields, pl.dtype_of s <> TStruct fields) ->
  GDGJson.expand_column self c prefix σ = (Raise AttributeError, σ).
Proof.
  intros Hc Ht. rewrite expand_column_run. unfold unnest_result.
  unfold GDGJson.struct_fields. rewrite assoc_schema, Hc. simpl.
  destruct (pl.dtype_of s) as [| | | | | |fields] eqn:Hs; try reflexivity.
  now destruct (Ht fields).
Qed.

Lemma expand_column_not_struct_witness :
  GDGJson.expand_column 0 "id" None (store_of sample)
  = (Raise AttributeError, store_of sample).
Proof.
  apply (expand_column_not_struct (store_of sample) 0 "id" None
           (pl.mkSeries "id" TInt64 [VInt 1; VInt 2])).
  - reflexivity.
  - discriminate.
Defined.

(** Both unnest methods on a plain name that is not a column of the table:
    the first engine call raises [ColumnNotFoundError] before anything is
    assigned, and the store is as before the call. *)
Theorem unnest_missing_column σ self c prefix :
  pl.plain c = true ->
  c ∉ pl.columns (table_of σ self) ->
  GDGJson.unnest_column_as_root self c σ = (Raise ColumnNotFoundError, σ)
  /\ GDGJson.unnest_column_as_rows self c prefix σ
     = (Raise ColumnNotFoundError, σ).
Proof.
  intros _ Hc. apply get_column_None in Hc. split.
  - rewrite unnest_column_as_root_run. unfold pl.select. simpl. now rewrite Hc.
  - rewrite unnest_column_as_rows_run. unfold pl.explode. now rewrite Hc.
Qed.

Lemma unnest_missing_column_witness :
  GDGJson.unnest_column_as_root 0 "zz" (store_of sample)
  = (Raise ColumnNotFoundError, store_of sample)
  /\ GDGJson.unnest_column_as_rows 0 "zz" None (store_of sample)
     = (Raise ColumnNotFoundError, store_of sample).
Proof.
  apply (unnest_missing_column (store_of sample) 0 "zz" None);
    [reflexivity|].
  apply has_name_false. reflexivity.
Defined.

(** [unnest_column_as_rows(c)] when the column [c], of plain name, is not a
    list: the engine's [InvalidOperationError], and the store is as before
    the call. *)
Theorem unnest_column_as_rows_not_list σ self c prefix s :
  pl.plain c = true ->
  pl.get_column (table_of σ self) c = Some s ->
  (forall inner, pl.dtype_of s <> TList inner) ->
  GDGJson.unnest_column_as_rows self c prefix σ = (Raise InvalidOperationError, σ).
Proof.
  intros _ Hc Ht. rewrite unnest_column_as_rows_run. unfold pl.explode.
  rewrite Hc. destruct (pl.dtype_of s) as [| | | | |inner|] eqn:Hs; try reflexivity.
  now destruct (Ht inner).
Qed.

Lemma unnest_column_as_rows_not_list_witness :
  GDGJson.unnest_column_as_rows 0 "c" None (store_of sample)
  = (Raise InvalidOperationError, store_of sample).
Proof.
  apply (unnest_column_as_rows_not_list (store_of sample) 0 "c" None
           (pl.mkSeries "c" T_ab [struct_ab 10 11; struct_ab 20 21])).
  - reflexivity.
  - reflexivity.
  - discriminate.
Defined.

(** ** Composition *)

(** [unnest_column_as_root(c)] is [select(c)] followed by
    [expand_column(c, "")]: the same outcome and the same store, for every
    store, failures included. *)
Theorem unnest_column_as_root_composes σ self c :
  GDGJson.unnest_column_as_root self c σ
  = (GDGJson.select self [pl.col c] false
       ≫= fun _ => GDGJson.expand_column self c (Some "")) σ.
Proof.
  rewrite unnest_column_as_root_run. unfold mbind, M_bind.
  rewrite select_run.
  destruct (pl.select (table_of σ self) [pl.col c]) as [d1|e]; [|reflexivity].
  cbn [step]. now rewrite expand_column_run.
Qed.

(** ** What every transform keeps *)

Lemma table_ok_uniform d : table_ok d -> uniform (pl.height d) d.
Proof. now intros [_ H]. Qed.

Lemma uniform_table_ok n d : NoDup (pl.columns d) -> uniform n d -> table_ok d.
Proof.
  intros Hnd Hu. split; [assumption|].
  destruct d as [|s d]; [constructor|].
  pose proof Hu as Hu'. apply Forall_cons in Hu' as [Hs _].
  simpl. now rewrite Hs.
Qed.

Lemma eval_uniform n d e s :
  uniform n d -> pl.eval d e = Ok s -> length (pl.values s) = n.
Proof.
  intros Hu. revert s. induction e as [c|e IH f|e IH a]; simpl; intros s.
  - destruct (pl.get_column d c) as [s'|] eqn:Hc; [|discriminate].
    intros [= <-]. destruct (get_column_Some _ _ _ Hc) as [Hin _].
    unfold uniform in Hu. rewrite Forall_forall in Hu. now apply Hu.
  - destruct (pl.eval d e) as [s'|]; [|discriminate].
    destruct (pl.dtype_of s') as [| | | | | |fields]; try discriminate.
    destruct (assoc f fields); [|discriminate].
    intros [= <-]. simpl. rewrite length_map. now apply IH.
  - destruct (pl.eval d e) as [s'|]; [|discriminate].
    intros [= <-]. simpl. now apply IH.
Qed.

Lemma mapR_Forall {A B} (f : A -> result B) (P : B -> Prop) xs ys :
  (forall x y, f x = Ok y -> P y) -> mapR f xs = Ok ys -> Forall P ys.
Proof.
  intros H. revert ys. induction xs as [|x xs IH]; simpl; intros ys.
  - intros [= <-]. constructor.
  - destruct (f x) as [y|] eqn:Hy; [|discriminate].
    destruct (mapR f xs) as [ys'|]; [|discriminate].
    intros [= <-]. constructor; [now apply (H x) | now apply IH].
Qed.

Lemma eval_name d e s : pl.eval d e = Ok s -> pl.name s = pl.output_name e.
Proof.
  destruct e as [c|e f|e a]; simpl.
  - destruct (pl.get_column d c) as [s'|] eqn:Hc; [|discriminate].
    intros [= <-]. now destruct (get_column_Some _ _ _ Hc).
  - destruct (pl.eval d e) as [s'|]; [|discriminate].
    destruct (pl.dtype_of s') as [| | | | | |fields]; try discriminate.
    destruct (assoc f fields); [|discriminate]. now intros [= <-].
  - destruct (pl.eval d e) as [s'|]; [|discriminate]. now intros [= <-].
Qed.

Lemma mapR_eval_names d es out :
  mapR (pl.eval d) es = Ok out -> pl.columns out = map pl.output_name es.
Proof.
  revert out. induction es as [|e es IH]; simpl; intros out.
  - now intros [= <-].
  - destruct (pl.eval d e) as [s|] eqn:He; [|discriminate].
    destruct (mapR (pl.eval d) es) as [out'|]; [|discriminate].
    intros [= <-]. simpl. now rewrite (eval_name _ _ _ He), (IH out' eq_refl).
Qed.

Lemma select_table_ok n d es out :
  uniform n d -> pl.select d es = Ok out -> NoDup (pl.columns out) /\ uniform n out.
Proof.
  intros Hu. unfold pl.select.
  destruct (pl.distinct (map pl.output_name es)) eqn:Hd; [|discriminate].
  intros Hm. split.
  - rewrite (mapR_eval_names _ _ _ Hm). now apply distinct_spec.
  - apply (mapR_Forall _ _ _ _ (fun e s => eval_uniform n d e s Hu) Hm).
Qed.

Lemma rename_table_ok n d m out :
  uniform n d -> pl.rename d m = Ok out -> NoDup (pl.columns out) /\ uniform n out.
Proof.
  intros Hu. unfold pl.rename.
  destruct (pl.distinct _) eqn:Hd; [|discriminate].
  destruct (forallb _ _); [|discriminate].
  intros [= <-]. split; [now apply distinct_spec|].
  unfold uniform. rewrite Forall_map. simpl. exact Hu.
Qed.

Lemma NoDup_columns_filter (P : pl.Series -> bool) d :
  NoDup (pl.columns d) -> NoDup (pl.columns (List.filter P d)).
Proof.
  unfold pl.columns. induction d as [|s d IH]; simpl; intros Hnd; [constructor|].
  apply NoDup_cons in Hnd as [Hs Hnd]. destruct (P s); simpl; [|auto].
  apply NoDup_cons. split; [|auto].
  intros Hin. apply Hs. apply elem_of_map in Hin as (s' & Heq & Hs').
  apply elem_of_map. exists s'. split; [assumption|].
  apply list_elem_of_In in Hs'. apply filter_In in Hs' as [Hs' _].
  now apply list_elem_of_In.
Qed.

Lemma drop_table_ok n d names out :
  NoDup (pl.columns d) -> uniform n d -> pl.drop d names = Ok out ->
  NoDup (pl.columns out) /\ uniform n out.
Proof.
  intros Hnd Hu. unfold pl.drop. destruct (forallb _ _); [|discriminate].
  intros [= <-]. split; [now apply NoDup_columns_filter|].
  unfold uniform in *. rewrite Forall_forall in *. intros s Hs. apply Hu.
  apply list_elem_of_In in Hs. apply filter_In in Hs as [Hs _].
  now apply list_elem_of_In.
Qed.

Lemma with_columns_table_ok n d e out :
  NoDup (pl.columns d) -> uniform n d -> pl.with_columns d e = Ok out ->
  NoDup (pl.columns out) /\ uniform n out.
Proof.
  intros Hnd Hu. unfold pl.with_columns.
  destruct (pl.eval d e) as [s|] eqn:He; [|discriminate].
  pose proof (eval_uniform n d e s Hu He) as Hs.
  destruct (pl.has_name (pl.name s) (pl.columns d)) eqn:Hn; intros [= <-].
  - split.
    + assert (Hc : pl.columns (map (fun s' => if String.eqb (pl.name s') (pl.name s)
                                              then s else s') d) = pl.columns d).
      { unfold pl.columns. rewrite map_map. apply map_ext. intros s'.
        now destruct (String.eqb_spec (pl.name s') (pl.name s)). }
      now rewrite Hc.
    + unfold uniform in *. rewrite Forall_map. eapply Forall_impl; [exact Hu|].
      intros s' Hs'. simpl. now destruct (String.eqb _ _).
  - split.
    + unfold pl.columns. rewrite map_app. simpl. apply NoDup_app.
      split; [exact Hnd|]. split; [|apply NoDup_singleton].
      intros x Hx Hx'. apply list_elem_of_singleton in Hx' as ->.
      apply has_name_false in Hn. contradiction.
    + apply Forall_app. split; [exact Hu | now constructor].
Qed.

Lemma repeat_cells_length by_ vs :
  length vs = length by_ ->
  length (pl.repeat_cells by_ vs) = exploded_height by_.
Proof.
  unfold exploded_height. revert vs.
  induction by_ as [|b by_ IH]; intros [|v vs]; simpl; try discriminate;
    [reflexivity|].
  intros [= H]. rewrite length_app, length_replicate, (IH vs H). reflexivity.
Qed.

Lemma explode_cells_length vs :
  length (concat (map pl.explode_cell vs)) = exploded_height vs.
Proof.
  unfold exploded_height. induction vs as [|v vs IH]; simpl; [reflexivity|].
  now rewrite length_app, IH.
Qed.

Lemma explode_table_ok n d c s inner :
  NoDup (pl.columns d) -> uniform n d ->
  pl.get_column d c = Some s -> pl.dtype_of s = TList inner ->
  NoDup (pl.columns (map (exploded s inner) d))
  /\ uniform (exploded_height (pl.values s)) (map (exploded s inner) d).
Proof.
  intros Hnd Hu Hc Ht. split.
  - now rewrite (columns_map _ (exploded_name s inner)).
  - destruct (get_column_Some _ _ _ Hc) as [Hin _].
    unfold uniform in *. rewrite Forall_forall in Hu. pose proof (Hu s Hin) as Hs.
    rewrite Forall_map. apply Forall_forall. intros s' Hs'. unfold exploded.
    destruct (String.eqb_spec (pl.name s') (pl.name s)) as [Heq|Hne]; simpl.
    + assert (s' = s) as ->.
      { pose proof (get_column_elem d s' Hnd Hs') as H1.
        pose proof (get_column_elem d s Hnd Hin) as H2.
        rewrite Heq in H1. congruence. }
      apply explode_cells_length.
    + apply repeat_cells_length. rewrite (Hu s' Hs'). now rewrite Hs.
Qed.

Lemma unnest_result_table_ok n d c prefix out :
  uniform n d -> unnest_result d c prefix = Ok out ->
  NoDup (pl.columns out) /\ uniform n out.
Proof.
  intros Hu. unfold unnest_result.
  destruct (GDGJson.struct_fields d c); [|discriminate].
  now apply select_table_ok.
Qed.

Lemma step_table_ok σ self r :
  valid σ self ->
  table_ok (table_of σ self) ->
  (forall d, r = Ok d -> table_ok d) ->
  valid (step σ self r).2 self /\ table_ok (table_of (step σ self r).2 self).
Proof.
  intros Hv Hok Hr. destruct r as [d|e]; simpl; [|now split].
  destruct Hv as [Hself _]. split; [now apply valid_rebind|].
  rewrite table_of_rebind by assumption. now apply Hr.
Qed.

(** An adapter that holds a well-formed table (no two columns of one name,
    every column as long as the table is high) holds a well-formed table
    after every transform call, whether the call returns or raises; this
    includes the intermediate table a failed two-step unnest leaves behind. *)
Theorem transforms_keep_table_ok σ self t :
  valid σ self ->
  table_ok (table_of σ self) ->
  valid (call self t σ).2 self
  /\ table_ok (table_of (call self t σ).2 self).
Proof.
  intros Hv [Hnd Hu]. pose proof Hv as [Hself _].
  assert (Hok : table_ok (table_of σ self)) by now split.
  assert (Hone : forall r,
            (forall d, r = Ok d -> NoDup (pl.columns d) /\ uniform (pl.height (table_of σ self)) d) ->
            valid (step σ self r).2 self
            /\ table_ok (table_of (step σ self r).2 self)).
  { intros r Hr. apply step_table_ok; [assumption..|].
    intros d Hd. destruct (Hr d Hd) as [H1 H2]. now apply (uniform_table_ok _ _ H1 H2). }
  destruct t as [c|c p|a b|a b|cs|a b|c p|c v|args b]; cbn [call].
  - rewrite unnest_column_as_root_run.
    destruct (pl.select _ [pl.col c]) as [d1|e1] eqn:Hsel; [|now split].
    destruct (select_table_ok _ _ _ _ Hu Hsel) as [Hnd1 Hu1].
    apply step_table_ok.
    + now apply valid_rebind.
    + rewrite table_of_rebind by assumption. now apply (uniform_table_ok _ _ Hnd1 Hu1).
    + rewrite table_of_rebind by assumption. intros d Hd.
      destruct (unnest_result_table_ok _ _ _ _ _ Hu1 Hd) as [H1 H2].
      now apply (uniform_table_ok _ _ H1 H2).
  - rewrite unnest_column_as_rows_run.
    destruct (pl.explode _ c) as [d1|e1] eqn:Hex; [|now split].
    assert (Hd1 : NoDup (pl.columns d1) /\ exists n, uniform n d1).
    { unfold pl.explode in Hex.
      destruct (pl.get_column _ c) as [s|] eqn:Hc; [|discriminate].
      destruct (pl.dtype_of s) as [| | | | |inner|] eqn:Ht; try discriminate.
      destruct (get_column_Some _ _ _ Hc) as [_ Hname].
      destruct (explode_table_ok _ _ c s inner Hnd Hu Hc Ht) as [H1 H2].
      injection Hex as <-. unfold exploded in H1, H2. rewrite Hname in H1, H2.
      split; [exact H1 | eexists; exact H2]. }
    destruct Hd1 as [Hnd1 [n1 Hu1]].
    apply step_table_ok.
    + now apply valid_rebind.
    + rewrite table_of_rebind by assumption. now apply (uniform_table_ok _ _ Hnd1 Hu1).
    + rewrite table_of_rebind by assumption. intros d Hd.
      destruct (unnest_result_table_ok _ _ _ _ _ Hu1 Hd) as [H1 H2].
      now apply (uniform_table_ok _ _ H1 H2).
  - rewrite rename_column_run. apply Hone. intros d Hd.
    now apply (rename_table_ok _ _ _ _ Hu Hd).
  - rewrite rename_columns_run. apply Hone. intros d Hd.
    now apply (rename_table_ok _ _ _ _ Hu Hd).
  - rewrite drop_run. apply Hone. intros d Hd.
    now apply (drop_table_ok _ _ _ _ Hnd Hu Hd).
  - rewrite duplicate_column_run. apply Hone. intros d Hd.
    now apply (with_columns_table_ok _ _ _ _ Hnd Hu Hd).
  - rewrite expand_column_run. apply Hone. intros d Hd.
    now apply (unnest_result_table_ok _ _ _ _ _ Hu Hd).
  - rewrite set_constant_run. now split.
  - rewrite select_run. destruct b; [now split|]. apply Hone. intros d Hd.
    now apply (select_table_ok _ _ _ _ Hu Hd).
Qed.

Lemma transforms_keep_table_ok_witness :
  valid (call 0 (UnnestColumnAsRoot "id") (store_of sample)).2 0
  /\ table_ok (table_of (call 0 (UnnestColumnAsRoot "id") (store_of sample)).2 0).
Proof.
  apply (transforms_keep_table_ok (store_of sample) 0 (UnnestColumnAsRoot "id")).
  - split; simpl; lia.
  - split; [apply distinct_spec; reflexivity | repeat constructor].
Defined.

(** ** Adapters side by side *)

Lemma step_other σ self r b :
  b <> self -> valid σ b ->
  valid (step σ self r).2 b
  /\ table_of (step σ self r).2 b = table_of σ b.
Proof.
  intros Hne [Hb Ht]. destruct r as [d|e]; simpl; [|now split].
  unfold valid, table_of, rebind. simpl.
  rewrite length_insert, list_lookup_total_insert_ne by congruence.
  rewrite length_app. simpl. split; [split; lia|].
  now rewrite lookup_total_app_l.
Qed.

Lemma call_other σ self t b :
  b <> self -> valid σ b ->
  valid (call self t σ).2 b /\ table_of (call self t σ).2 b = table_of σ b.
Proof.
  intros Hne Hv.
  destruct t as [c|c p|a b0|a b0|cs|a b0|c p|c v|args b0]; cbn [call].
  - rewrite unnest_column_as_root_run.
    destruct (pl.select _ [pl.col c]) as [d1|e1]; [|now split].
    destruct (step_other σ self (Ok d1) b Hne Hv) as [Hv1 Ht1]. simpl in Hv1, Ht1.
    destruct (step_other (rebind σ self d1) self
                (unnest_result (table_of (rebind σ self d1) self) c (Some ""))
                b Hne Hv1) as [Hv2 Ht2].
    split; [assumption | congruence].
  - rewrite unnest_column_as_rows_run.
    destruct (pl.explode _ c) as [d1|e1]; [|now split].
    destruct (step_other σ self (Ok d1) b Hne Hv) as [Hv1 Ht1]. simpl in Hv1, Ht1.
    destruct (step_other (rebind σ self d1) self
                (unnest_result (table_of (rebind σ self d1) self) c p)
                b Hne Hv1) as [Hv2 Ht2].
    split; [assumption | congruence].
  - rewrite rename_column_run. now apply step_other.
  - rewrite rename_columns_run. now apply step_other.
  - rewrite drop_run. now apply step_other.
  - rewrite duplicate_column_run. now apply step_other.
  - rewrite expand_column_run. now apply step_other.
  - rewrite set_constant_run. now split.
  - rewrite select_run. destruct b0; [now split | now apply step_other].
Qed.

Lemma call_all_other σ self ts b :
  b <> self -> valid σ b ->
  valid (call_all self ts σ) b /\ table_of (call_all self ts σ) b = table_of σ b.
Proof.
  intros Hne. revert σ. induction ts as [|t ts IH]; intros σ Hv; simpl.
  - now split.
  - destruct (call_other σ self t b Hne Hv) as [Hv1 Ht1].
    destruct (IH _ Hv1) as [Hv2 Ht2]. split; [assumption | congruence].
Qed.

(** Two adapters constructed from the same pre-built table hold the same
    table object, and yet no sequence of transform calls on the one changes
    the table the other holds. *)
Theorem shared_table_adapters_independent σ l d a σ1 b σ2 ts :
  tables σ !! l = Some d ->
  GDGJson.__init__ (PyDataFrame l) σ = (Ok a, σ1) ->
  GDGJson.__init__ (PyDataFrame l) σ1 = (Ok b, σ2) ->
  adapters σ2 !! a = Some l
  /\ adapters σ2 !! b = Some l
  /\ table_of (call_all a ts σ2) b = d
  /\ table_of (call_all b ts σ2) a = d.
Proof.
  intros Hd [= <- <-] [= <- <-]. simpl.
  rewrite length_app. simpl.
  assert (Hl : l < length (tables σ)) by (now apply lookup_lt_Some with d).
  set (σ2 := mkStore (tables σ) ((adapters σ ++ [l]) ++ [l])).
  assert (Ha : adapters σ2 !! length (adapters σ) = Some l).
  { simpl. rewrite lookup_app_l by (rewrite length_app; simpl; lia).
    rewrite lookup_app_r, Nat.sub_diag by lia. reflexivity. }
  assert (Hb : adapters σ2 !! (length (adapters σ) + 1) = Some l).
  { simpl. rewrite lookup_app_r by (rewrite length_app; simpl; lia).
    rewrite length_app. simpl. now rewrite Nat.sub_diag. }
  assert (Hva : valid σ2 (length (adapters σ))).
  { split; [simpl; rewrite !length_app; simpl; lia|].
    now rewrite (list_lookup_total_correct _ _ _ Ha). }
  assert (Hvb : valid σ2 (length (adapters σ) + 1)).
  { split; [simpl; rewrite !length_app; simpl; lia|].
    now rewrite (list_lookup_total_correct _ _ _ Hb). }
  assert (Hta : table_of σ2 (length (adapters σ)) = d).
  { unfold table_of. rewrite (list_lookup_total_correct _ _ _ Ha).
    now apply list_lookup_total_correct. }
  assert (Htb : table_of σ2 (length (adapters σ) + 1) = d).
  { unfold table_of. rewrite (list_lookup_total_correct _ _ _ Hb).
    now apply list_lookup_total_correct. }
  split; [exact Ha|]. split; [exact Hb|]. split.
  - destruct (call_all_other σ2 (length (adapters σ)) ts
                (length (adapters σ) + 1)) as [_ ->]; [lia | assumption | assumption].
  - destruct (call_all_other σ2 (length (adapters σ) + 1) ts
                (length (adapters σ))) as [_ ->]; [lia | assumption | assumption].
Qed.

Lemma shared_table_adapters_independent_witness :
  adapters (mkStore [sample] [0; 0]) !! 0 = Some 0
  /\ adapters (mkStore [sample] [0; 0]) !! 1 = Some 0
  /\ table_of (call_all 0 [Drop (OneName "id"); ExpandColumn "c" None]
                 (mkStore [sample] [0; 0])) 1 = sample
  /\ table_of (call_all 1 [Drop (OneName "id"); ExpandColumn "c" None]
                 (mkStore [sample] [0; 0])) 0 = sample.
Proof.
  apply (shared_table_adapters_independent (mkStore [sample] []) 0 sample
           0 (mkStore [sample] [0]) 1 (mkStore [sample] [0; 0])
           [Drop (OneName "id"); ExpandColumn "c" None]).
  - reflexivity.
  - reflexivity.
  - reflexivity.
Defined.

(** A deep copy of an adapter is a new adapter on a new table object with the
    same columns; afterwards no sequence of transform calls on the copy
    changes the table of the original, and none on the original changes the
    table of the copy. *)
Theorem deepcopy_isolated σ self :
  valid σ self ->
  exists c σ',
    GDGJson.__deepcopy__ self σ = (Ok c, σ')
    /\ c <> self
    /\ adapters σ' !!! c <> adapters σ' !!! self
    /\ table_of σ' c = table_of σ self
    /\ (forall ts, table_of (call_all c ts σ') self = table_of σ self)
    /\ (forall ts, table_of (call_all self ts σ') c = table_of σ self).
Proof.
  intros [Hself Ht].
  set (σ' := mkStore (tables σ ++ [table_of σ self])
                     (adapters σ ++ [length (tables σ)])).
  exists (length (adapters σ)), σ'. split; [reflexivity|].
  assert (Hc : adapters σ' !!! length (adapters σ) = length (tables σ)).
  { simpl. apply lookup_total_snoc. }
  assert (Hs : adapters σ' !!! self = adapters σ !!! self).
  { simpl. now rewrite lookup_total_app_l. }
  assert (Htc : table_of σ' (length (adapters σ)) = table_of σ self).
  { unfold table_of at 1. rewrite Hc. simpl. apply lookup_total_snoc. }
  assert (Hts : table_of σ' self = table_of σ self).
  { unfold table_of at 1. rewrite Hs. simpl. now rewrite lookup_total_app_l. }
  assert (Hvc : valid σ' (length (adapters σ))).
  { split; [simpl; rewrite length_app; simpl; lia|].
    rewrite Hc. simpl. rewrite length_app. simpl. lia. }
  assert (Hvs : valid σ' self).
  { split; [simpl; rewrite length_app; simpl; lia|].
    rewrite Hs. simpl. rewrite length_app. simpl. lia. }
  split; [lia|]. split; [rewrite Hc, Hs; lia|]. split; [exact Htc|]. split.
  - intros ts.
    destruct (call_all_other σ' (length (adapters σ)) ts self) as [_ ->];
      [lia | assumption | assumption].
  - intros ts.
    destruct (call_all_other σ' self ts (length (adapters σ))) as [_ ->];
      [lia | assumption | assumption].
Qed.

Lemma deepcopy_isolated_witness :
  exists c σ',
    GDGJson.__deepcopy__ 0 (store_of sample) = (Ok c, σ')
    /\ c <> 0
    /\ adapters σ' !!! c <> adapters σ' !!! 0
    /\ table_of σ' c = table_of (store_of sample) 0
    /\ (forall ts, table_of (call_all c ts σ') 0 = table_of (store_of sample) 0)
    /\ (forall ts, table_of (call_all 0 ts σ') c = table_of (store_of sample) 0).
Proof.
  apply (deepcopy_isolated (store_of sample) 0).
  split; simpl; lia.
Defined.

(** ** Row counts *)



(** ** Renaming several columns *)

Lemma zip_fst_elem (ks vs : list string) k :
  k ∈ map fst (zip ks vs) -> k ∈ ks.
Proof.
  revert vs. induction ks as [|k' ks IH]; intros [|v vs]; simpl; intros H;
    try (now inversion H).
  apply elem_of_cons in H as [->|H]; [left | right; now apply (IH vs)].
Qed.

Lemma NoDup_zip_fst (ks vs : list string) :
  NoDup ks -> NoDup (map fst (zip ks vs)).
Proof.
  revert vs. induction ks as [|k ks IH]; intros [|v vs] Hnd; simpl;
    try constructor.
  - apply NoDup_cons in Hnd as [Hk _]. intros Hin. apply Hk.
    now apply (zip_fst_elem ks vs).
  - apply NoDup_cons in Hnd as [_ Hnd]. now apply IH.
Qed.

Lemma fold_insert_lookup (l : list (string * string)) (m : gmap string string) k :
  NoDup (map fst l) ->
  fold_left (fun m kv => <[kv.1 := kv.2]> m) l m !! k
  = match assoc k l with Some v => Some v | None => m !! k end.
Proof.
  revert m. induction l as [|[k' v'] l IH]; intros m Hnd; simpl; [reflexivity|].
  apply NoDup_cons in Hnd as [Hk' Hnd]. rewrite (IH _ Hnd).
  destruct (String.eqb_spec k k') as [->|Hne].
  - simpl in Hk'. rewrite (proj2 (assoc_None k' l) Hk'). simpl.
    apply lookup_insert_eq.
  - simpl. destruct (assoc k l); [reflexivity|].
    apply lookup_insert_ne. congruence.
Qed.

Lemma dict_zip_lookup (ks vs : list string) k :
  NoDup ks -> dict_zip ks vs !! k = assoc k (zip ks vs).
Proof.
  intros Hnd. unfold dict_zip.
  rewrite fold_insert_lookup by now apply NoDup_zip_fst.
  destruct (assoc k (zip ks vs)); [reflexivity | apply lookup_empty].
Qed.

(** [rename_columns(from_names, to_names)] with no name twice among
    [from_names], every paired name a column, and new names that leave no two
    columns alike: the call succeeds and every column named at a position of
    [from_names] takes the name at that position of [to_names], all at once
    (so two columns can swap names); cells, types and order are unchanged. *)
Theorem rename_columns_positional σ self from_names to_names :
  valid σ self ->
  NoDup from_names ->
  (forall a b, (a, b) ∈ zip from_names to_names ->
               a ∈ pl.columns (table_of σ self)) ->
  NoDup (map (positional from_names to_names) (pl.columns (table_of σ self))) ->
  exists σ',
    GDGJson.rename_columns self from_names to_names σ = (Ok self, σ')
    /\ table_of σ' self
       = map (fun s => pl.mkSeries (positional from_names to_names (pl.name s))
                         (pl.dtype_of s) (pl.values s)) (table_of σ self)
    /\ pl.columns (table_of σ' self)
       = map (positional from_names to_names) (pl.columns (table_of σ self)).
Proof.
  intros [Hself _] Hfrom Hpaired Hnew. rewrite rename_columns_run.
  set (d := table_of σ self) in *.
  assert (Hren : renamed (dict_zip from_names to_names) d
                 = map (fun s => pl.mkSeries
                                   (positional from_names to_names (pl.name s))
                                   (pl.dtype_of s) (pl.values s)) d).
  { unfold renamed, positional. apply map_ext. intros s.
    now rewrite dict_zip_lookup. }
  assert (Hcols : pl.columns (renamed (dict_zip from_names to_names) d)
                  = map (positional from_names to_names) (pl.columns d)).
  { rewrite Hren. unfold pl.columns. now rewrite !map_map. }
  rewrite rename_ok.
  - simpl. eexists. split; [reflexivity|].
    rewrite table_of_rebind by assumption. rewrite <- Hren. now split.
  - intros k v Hkv. rewrite dict_zip_lookup in Hkv by assumption.
    apply assoc_Some_elem in Hkv. exact (Hpaired _ _ Hkv).
  - now rewrite Hcols.
Qed.

Lemma rename_columns_positional_witness :
  exists σ',
    GDGJson.rename_columns 0 ["id"; "k"] ["k"; "id"] (store_of sample) = (Ok 0, σ')
    /\ table_of σ' 0
       = [ pl.mkSeries "k" TInt64 [VInt 1; VInt 2];
           pl.mkSeries "c" T_ab [struct_ab 10 11; struct_ab 20 21];
           pl.mkSeries "id" TString [VStr "x"; VStr "y"] ]
    /\ pl.columns (table_of σ' 0) = ["k"; "c"; "id"].
Proof.
  apply (rename_columns_positional (store_of sample) 0 ["id"; "k"] ["k"; "id"]).
  - split; simpl; lia.
  - apply distinct_spec. reflexivity.
  - intros a b Hab. simpl in Hab.
    apply elem_of_cons in Hab as [[= -> ->]|Hab];
      [apply has_name_spec; reflexivity|].
    apply list_elem_of_singleton in Hab as [= -> ->].
    apply has_name_spec. reflexivity.
  - apply distinct_spec. reflexivity.
Defined.

(** ** Reading the table out *)

Lemma assoc_row_at d i s :
  NoDup (pl.columns d) -> s ∈ d ->
  assoc (pl.name s) (pl.row_at d i) = Some (default VNull (pl.values s !! i)).
Proof.
  intros Hnd Hs. unfold pl.row_at. apply assoc_NoDup.
  - rewrite map_map. exact Hnd.
  - apply elem_of_map. now exists s.
Qed.

(** [to_json()] on a well-formed table with at least one column returns
    one row per table row and leaves the store as it is; every row has the
    column names as its keys, in column order, and row [i] maps each column
    name to the [i]-th cell of that column. *)
Theorem to_json_rows σ self :
  table_of σ self <> [] ->
  table_ok (table_of σ self) ->
  exists out,
    GDGJson.to_json self σ = (Ok out, σ)
    /\ length out = pl.height (table_of σ self)
    /\ Forall (fun r => map fst r = pl.columns (table_of σ self)) out
    /\ forall i r s,
         out !! i = Some r -> s ∈ table_of σ self ->
         assoc (pl.name s) r = pl.values s !! i.
Proof.
  intros _ [Hnd Hu]. exists (pl.to_dicts (table_of σ self)).
  split; [reflexivity|]. set (d := table_of σ self) in *. unfold pl.to_dicts.
  split; [now rewrite length_map, length_seq|]. split.
  - apply Forall_forall. intros r Hr.
    apply elem_of_map in Hr as (i & -> & _). unfold pl.row_at, pl.columns.
    now rewrite map_map.
  - intros i r s Hr Hs.
    change (map (pl.row_at d) (seq 0 (pl.height d)))
      with (pl.row_at d <$> seq 0 (pl.height d)) in Hr.
    rewrite list_lookup_fmap in Hr.
    destruct (seq 0 (pl.height d) !! i) as [j|] eqn:Hj; [|discriminate].
    apply lookup_seq in Hj as [-> Hlt]. injection Hr as <-. simpl.
    rewrite (assoc_row_at d i s Hnd Hs).
    rewrite Forall_forall in Hu. rewrite <- (Hu s Hs) in Hlt.
    apply lookup_lt_is_Some in Hlt as [v ->]. reflexivity.
Qed.

Lemma to_json_rows_witness :
  exists out,
    GDGJson.to_json 0 (store_of sample) = (Ok out, store_of sample)
    /\ length out = pl.height (table_of (store_of sample) 0)
    /\ Forall (fun r => map fst r = pl.columns (table_of (store_of sample) 0)) out
    /\ forall i r s,
         out !! i = Some r -> s ∈ table_of (store_of sample) 0 ->
         assoc (pl.name s) r = pl.values s !! i.
Proof.
  apply (to_json_rows (store_of sample) 0).
  - discriminate.
  - split; [apply distinct_spec; reflexivity | repeat constructor].
Defined.

(** ** Construction from a dict of columns *)

(** The constructor on a dict (no key twice) of columns of one length, each
    with cells of a common type (integers being of 64 bits): a new adapter on
    a new table object whose columns are the keys in dict order with the
    cells given; the objects that existed are untouched. *)
Theorem init_from_dict σ data n :
  NoDup (map fst data) ->
  Forall (fun kv => length kv.2 = n) data ->
  Forall (fun kv => is_Some (infer_dtype kv.2 TNull)) data ->
  exists self σ',
    GDGJson.__init__ (PyDict data) σ = (Ok self, σ')
    /\ pl.columns (table_of σ' self) = map fst data
    /\ map pl.values (table_of σ' self) = map snd data
    /\ tables σ' = tables σ ++ [table_of σ' self]
    /\ adapters σ' = adapters σ ++ [length (tables σ)].
Proof.
  intros _ Hlen Htyp.
  set (d := map (fun kv : string * list value =>
                   pl.mkSeries kv.1 (default TNull (infer_dtype kv.2 TNull)) kv.2)
                data).
  assert (Hfrom : pl.from_dict data = Ok d).
  { unfold pl.from_dict. destruct data as [|[k0 vs0] data']; [reflexivity|].
    assert (Hall : forallb (fun '(_, vs) => Nat.eqb (length vs) (length vs0))
                     ((k0, vs0) :: data') = true).
    { apply forallb_forall. intros [k vs] Hin. apply Nat.eqb_eq.
      rewrite Forall_forall in Hlen. apply list_elem_of_In in Hin.
      pose proof (Hlen _ Hin) as H1.
      pose proof (Hlen (k0, vs0) ltac:(left)) as H2. simpl in *. congruence. }
    rewrite Hall. apply mapR_map. intros [k vs] Hin. unfold pl.make_series.
    rewrite Forall_forall in Htyp. destruct (Htyp _ Hin) as [t Ht].
    simpl in *. rewrite Ht. reflexivity. }
  exists (length (adapters σ)).
  exists (mkStore (tables σ ++ [d]) (adapters σ ++ [length (tables σ)])).
  assert (Htab : table_of (mkStore (tables σ ++ [d])
                             (adapters σ ++ [length (tables σ)]))
                   (length (adapters σ)) = d).
  { unfold table_of. simpl. now rewrite !lookup_total_snoc. }
  rewrite Htab. split.
  - unfold GDGJson.__init__. run_method. now rewrite Hfrom.
  - unfold d, pl.columns. rewrite !map_map. simpl. repeat split; reflexivity.
Qed.

Lemma init_from_dict_witness :
  exists self σ',
    GDGJson.__init__ (PyDict [("a", [VInt 1; VInt 2]); ("b", [VStr "x"; VNull])])
      (mkStore [] []) = (Ok self, σ')
    /\ pl.columns (table_of σ' self) = ["a"; "b"]
    /\ map pl.values (table_of σ' self) = [[VInt 1; VInt 2]; [VStr "x"; VNull]]
    /\ tables σ' = [] ++ [table_of σ' self]
    /\ adapters σ' = [] ++ [0].
Proof.
  apply (init_from_dict (mkStore [] [])
           [("a", [VInt 1; VInt 2]); ("b", [VStr "x"; VNull])] 2).
  - apply distinct_spec. reflexivity.
  - repeat constructor.
  - repeat constructor; eexists; reflexivity.
Defined.
